(** * The Prometheus exporter of opentelemetry-go: translation and sanitization

    A shallow embedding of [exporters/prometheus/exporter.go]: the name
    sanitizer, the unit suffix table, the attribute encoder, the histogram
    bucket accumulation, the three per-kind translators and the collector's
    [Collect] method, followed by the properties the specification states
    about them.

    Go strings are byte sequences: they are modelled as [string] (a list of
    8-bit [ascii]), and [for i, c := range s] decodes UTF-8 from them the way
    the Go language defines it. *)

From Stdlib Require Import ZArith Ascii String Floats.SpecFloat.
From stdpp Require Import base option list strings gmap fin_maps sorting.

Local Open Scope Z_scope.

(** ** Go strings and runes *)

Module GoString.

(** A rune is a Unicode code point, an [int32] in Go; the characters the
    code compares against are written [rune "a"]. *)
Definition rune (a : ascii) : Z := Z.of_N (N_of_ascii a).

(** [byte(c)]: conversion of a rune to a byte keeps the low eight bits. *)
Definition byte (c : Z) : ascii := ascii_of_N (Z.to_N (c mod 256)).

(** [len(s)] *)
Definition len (s : string) : Z := Z.of_nat (String.length s).

(** [s[:i]]; out of range is a run-time panic, [None]. *)
Definition sliceTo (s : string) (i : Z) : option string :=
  if (0 <=? i) && (i <=? len s) then Some (substring 0 (Z.to_nat i) s)
  else None.

(** [s[i:]]; out of range is a run-time panic, [None]. *)
Definition sliceFrom (s : string) (i : Z) : option string :=
  if (0 <=? i) && (i <=? len s)
  then Some (substring (Z.to_nat i) (String.length s - Z.to_nat i) s)
  else None.

(** [utf8.RuneError], U+FFFD. *)
Definition RuneError : Z := 0xFFFD.

(** For a leading byte of a multi-byte sequence: the length of the
    sequence and the range accepted for its second byte (the tables
    [first] and [acceptRanges] of [unicode/utf8]). *)
Definition acceptRange (s0 : Z) : option (Z * Z * Z) :=
  if (0xC2 <=? s0) && (s0 <=? 0xDF) then Some (2, 0x80, 0xBF)
  else if s0 =? 0xE0 then Some (3, 0xA0, 0xBF)
  else if (0xE1 <=? s0) && (s0 <=? 0xEC) then Some (3, 0x80, 0xBF)
  else if s0 =? 0xED then Some (3, 0x80, 0x9F)
  else if (0xEE <=? s0) && (s0 <=? 0xEF) then Some (3, 0x80, 0xBF)
  else if s0 =? 0xF0 then Some (4, 0x90, 0xBF)
  else if (0xF1 <=? s0) && (s0 <=? 0xF3) then Some (4, 0x80, 0xBF)
  else if s0 =? 0xF4 then Some (4, 0x80, 0x8F)
  else None.

Definition continuation (b : Z) : bool := (0x80 <=? b) && (b <=? 0xBF).

(** [utf8.DecodeRuneInString]: the first rune of [s] and its width in
    bytes. An invalid or truncated encoding gives [(RuneError, 1)]. *)
Definition decodeRune (s : string) : Z * Z :=
  match s with
  | EmptyString => (RuneError, 0)
  | String a0 t0 =>
    let s0 := rune a0 in
    if s0 <? 0x80 then (s0, 1) else
    match acceptRange s0, t0 with
    | Some (sz, lo, hi), String a1 t1 =>
      let s1 := rune a1 in
      if (s1 <? lo) || (hi <? s1) then (RuneError, 1)
      else if sz <=? 2 then ((s0 mod 32) * 64 + s1 mod 64, 2)
      else
        match t1 with
        | String a2 t2 =>
          let s2 := rune a2 in
          if negb (continuation s2) then (RuneError, 1)
          else if sz <=? 3
               then ((s0 mod 16) * 4096 + (s1 mod 64) * 64 + s2 mod 64, 3)
          else
            match t2 with
            | String a3 _ =>
              let s3 := rune a3 in
              if negb (continuation s3) then (RuneError, 1)
              else ((s0 mod 8) * 262144 + (s1 mod 64) * 4096
                    + (s2 mod 64) * 64 + s3 mod 64, 4)
            | EmptyString => (RuneError, 1)
            end
        | EmptyString => (RuneError, 1)
        end
    | _, _ => (RuneError, 1)
    end
  end.

(** [for i, c := range s]: the pairs (byte index, rune) the loop visits.
    [skip] counts the bytes of the current rune still to be passed. *)
Fixpoint rangeFrom (skip : nat) (i : Z) (s : string) : list (Z * Z) :=
  match s with
  | EmptyString => []
  | String _ t =>
    match skip with
    | S k => rangeFrom k (i + 1) t
    | O => let '(r, w) := decodeRune s in
           (i, r) :: rangeFrom (Z.to_nat w - 1) (i + 1) t
    end
  end.

Definition rangeString (s : string) : list (Z * Z) := rangeFrom 0 0 s.

(** [utf8.RuneLen]: the number of bytes of the encoding of [r], or -1. *)
Definition RuneLen (r : Z) : Z :=
  if r <? 0 then -1
  else if r <=? 0x7F then 1
  else if r <=? 0x7FF then 2
  else if (0xD800 <=? r) && (r <=? 0xDFFF) then -1
  else if r <=? 0xFFFF then 3
  else if r <=? 0x10FFFF then 4
  else -1.

(** [utf8.AppendRune] / [Builder.WriteRune]: the UTF-8 encoding of [r];
    a rune that is not a valid code point is encoded as U+FFFD. *)
Definition encodeRune (r : Z) : string :=
  if (0 <=? r) && (r <=? 0x7F) then String (byte r) ""
  else if (0 <=? r) && (r <=? 0x7FF)
  then String (byte (0xC0 + r / 64)) (String (byte (0x80 + r mod 64)) "")
  else if (r <? 0) || (0x10FFFF <? r) || ((0xD800 <=? r) && (r <=? 0xDFFF))
  then String (byte 0xEF) (String (byte 0xBF) (String (byte 0xBD) ""))
  else if r <=? 0xFFFF
  then String (byte (0xE0 + r / 4096))
         (String (byte (0x80 + (r / 64) mod 64))
            (String (byte (0x80 + r mod 64)) ""))
  else String (byte (0xF0 + r / 262144))
         (String (byte (0x80 + (r / 4096) mod 64))
            (String (byte (0x80 + (r / 64) mod 64))
               (String (byte (0x80 + r mod 64)) ""))).

(** [strings.Map(mapping, s)]: every rune of [s] replaced by its image,
    a negative image dropping the rune. *)
Definition Map (mapping : Z → Z) (s : string) : string :=
  foldr (λ '(_, c) acc,
           let r := mapping c in
           if r <? 0 then acc else encodeRune r +:+ acc)
        "" (rangeString s).

(** [strings.Join(elems, sep)] *)
Fixpoint Join (elems : list string) (sep : string) : string :=
  match elems with
  | [] => ""
  | [e] => e
  | e :: rest => e +:+ sep +:+ Join rest sep
  end.

(** [strings.Builder]: the bytes written and the capacity of the buffer.
    [Cap] is 0 until [Grow] or a write allocates. *)
Record Builder := mkBuilder { buf : string; Cap : Z }.

Definition newBuilder : Builder := mkBuilder "" 0.

Definition Grow (n : Z) (b : Builder) : Builder :=
  if Cap b - len (buf b) <? n
  then mkBuilder (buf b) (2 * Cap b + n)
  else b.

Definition WriteString (s : string) (b : Builder) : Builder :=
  mkBuilder (buf b +:+ s) (Z.max (Cap b) (len (buf b) + len s)).

Definition WriteByte (c : ascii) (b : Builder) : Builder :=
  WriteString (String c "") b.

End GoString.

Import GoString.

(** ** NameSanitizer *)

(** The closure [valid] of [sanitizeName]. *)
Definition valid (i : Z) (r : Z) : bool :=
  ((rune "a" <=? r) && (r <=? rune "z"))
  || ((rune "A" <=? r) && (r <=? rune "Z"))
  || (r =? rune "_") || (r =? rune ":")
  || ((rune "0" <=? r) && (r <=? rune "9") && (0 <? i)).

Definition replacement : ascii := "_"%char.

(** The first loop of [sanitizeName]: it stops at the first rune that is
    not valid, having started the output buffer [b] and, except for a
    leading digit, cut [n] down to what follows that rune. *)
Fixpoint sanitizeScan (n : string) (it : list (Z * Z)) (b : Builder)
  : option (Builder * string) :=
  match it with
  | [] => Some (b, n)
  | (i, c) :: rest =>
    if valid i c then sanitizeScan n rest b
    else if (i =? 0) && (rune "0" <=? c) && (c <=? rune "9")
    then Some (WriteByte replacement (Grow (len n + 1) b), n)
    else
      let b := Grow (len n) b in
      prefix ← sliceTo n i;
      let b := WriteString prefix b in
      let b := WriteByte replacement b in
      let width := RuneLen c in
      n' ← sliceFrom n (i + width);
      Some (b, n')
  end.

(** The second loop of [sanitizeName]. *)
Definition sanitizeRest (n : string) (b : Builder) : Builder :=
  foldl (λ b '(_, c),
           if valid 1 c then WriteByte (byte c) b
           else WriteByte replacement b)
        b (rangeString n).

(** [sanitizeName]; [None] is a run-time panic. *)
Definition sanitizeName (n : string) : option string :=
  '(b, n) ← sanitizeScan n (rangeString n) newBuilder;
  if Cap b =? 0 then Some n
  else Some (buf (sanitizeRest n b)).


(** ** Numbers *)

(** [float64], as the IEEE 754 values of the Standard Library. Go's [==] on
    floats is [SFeqb]: NaN differs from itself, and the two zeros are equal. *)
Abbreviation float64 := spec_float (only parsing).

Definition float64_of_Z (z : Z) : float64 := binary_normalize 53 1024 z 0 false.

(** [uint64] addition wraps around. *)
Definition uint64_add (x y : Z) : Z := (x + y) mod 2 ^ 64.

(** The constraint [N int64 | float64] of [addSumMetric] and
    [addGaugeMetric], with the conversion [float64(v)]. *)
Class Number (N : Type) := toFloat64 : N → float64.
#[global] Instance Number_int64 : Number Z := float64_of_Z.
#[global] Instance Number_float64 : Number float64 := λ f, f.

(** ** The map [map[float64]uint64] of histogram buckets

    Go compares float keys with [==], so the map is kept as an association
    list in insertion order: assigning under a key equal to a present one
    overwrites that entry, assigning under NaN always adds an entry. *)
Module Buckets.

Definition t : Type := list (float64 * Z).

Fixpoint assign (k : float64) (v : Z) (m : t) : t :=
  match m with
  | [] => [(k, v)]
  | (k', v') :: rest =>
    if SFeqb k' k then (k, v) :: rest else (k', v') :: assign k v rest
  end.

Fixpoint get (k : float64) (m : t) : option Z :=
  match m with
  | [] => None
  | (k', v') :: rest => if SFeqb k' k then Some v' else get k rest
  end.

End Buckets.

(** The inner loop of [addHistogramMetric]:
    [for i, bound := range dp.Bounds { cumulativeCount += dp.BucketCounts[i];
    buckets[bound] = cumulativeCount }]. An index outside [BucketCounts]
    panics. *)
Fixpoint accumulateBuckets (bounds : list float64) (i : nat)
    (BucketCounts : list Z) (cumulativeCount : Z) (buckets : Buckets.t)
  : option Buckets.t :=
  match bounds with
  | [] => Some buckets
  | bound :: rest =>
    c ← BucketCounts !! i;
    let cumulativeCount := uint64_add cumulativeCount c in
    accumulateBuckets rest (S i) BucketCounts cumulativeCount
                      (Buckets.assign bound cumulativeCount buckets)
  end.

Definition cumulativeBuckets (Bounds : list float64) (BucketCounts : list Z)
  : option Buckets.t :=
  accumulateBuckets Bounds 0 BucketCounts 0 [].

(** ** The target system's records *)

Inductive ValueType := CounterValue | GaugeValue | UntypedValue.

(** [prometheus.NewDesc(name, help, keys, nil)] *)
Record Desc := NewDesc {
  fqName : string;
  help : string;
  variableLabels : list string
}.

(** A [prometheus.Metric]: the nil interface value, a constant metric or a
    constant histogram, holding what its constructor was given. *)
Inductive PromMetric :=
| nilMetric
| constMetric (desc : Desc) (valType : ValueType) (val : float64)
              (labelValues : list string)
| constHistogram (desc : Desc) (count : Z) (sum : float64)
                 (buckets : Buckets.t) (labelValues : list string).

(** ** What the exporter is given from outside

    The packages the exporter imports and whose code is not part of this
    development: errors, attribute values, units, the Unicode tables,
    [sort.Slice], the run-time system's map iteration and the constructors
    of the target system. *)
Class Collaborators := {
  (** Go's [error] values, compared with [==], and the reader's
      [metric.ErrReaderNotRegistered]. *)
  Error : Type;
  Error_eq_dec :: EqDecision Error;
  ErrReaderNotRegistered : Error;
  (** [attribute.Value] and its [Emit] method. *)
  AttrValue : Type;
  Emit : AttrValue → string;
  (** [unit.Unit] and the three units the exporter names. *)
  Unit : Type;
  Unit_eq_dec :: EqDecision Unit;
  Dimensionless : Unit;
  Bytes : Unit;
  Milliseconds : Unit;
  (** [unicode.IsLetter] and [unicode.IsDigit]. *)
  IsLetter : Z → bool;
  IsDigit : Z → bool;
  (** [sort.Slice] on a [[]string], given the [less] function on indices. *)
  sortSlice : (nat → nat → bool) → list string → list string;
  (** The order in which the Go runtime visits a map in the [k]-th [range]
      over a map that the program executes: the language leaves it
      unspecified and lets it differ from one iteration to the next. *)
  runtimeOrder :
    nat → gmap string (list string) → list (string * list string);
  (** The validity rules of the target system: the error, if any, with
      which [prometheus.NewConstMetric] and [prometheus.NewConstHistogram]
      reject their arguments. *)
  constMetricError :
    Desc → ValueType → float64 → list string → option Error;
  constHistogramError :
    Desc → Z → float64 → Buckets.t → list string → option Error
}.

(** ** The exporter *)

Section Exporter.

Context `{Collaborators}.

Definition NewConstMetric (desc : Desc) (valueType : ValueType)
    (value : float64) (labelValues : list string) : PromMetric + Error :=
  match constMetricError desc valueType value labelValues with
  | Some err => inr err
  | None => inl (constMetric desc valueType value labelValues)
  end.

Definition NewConstHistogram (desc : Desc) (count : Z) (sum : float64)
    (buckets : Buckets.t) (labelValues : list string)
  : PromMetric + Error :=
  match constHistogramError desc count sum buckets labelValues with
  | Some err => inr err
  | None => inl (constHistogram desc count sum buckets labelValues)
  end.

(** *** The source data model *)

(** Modelled from the spec: an attribute of an attribute set, a string key
    with a scalar value ([attribute.KeyValue], declared outside the
    exporter's source). *)
Record KeyValue := { Key : string; Value : AttrValue }.

(** Modelled from the spec: an attribute set ([attribute.Set], declared
    outside the exporter's source), given as the sequence of attributes
    its iterator yields. *)
#[local] Abbreviation AttributeSet := (list KeyValue).

(** Modelled from the spec: a data point of a Sum or a Gauge
    ([metricdata.DataPoint[N]], declared outside the exporter's source). *)
Record DataPoint (N : Type) := {
  dpAttributes : AttributeSet;
  dpValue : N
}.
Arguments dpAttributes {N}.
Arguments dpValue {N}.

(** Modelled from the spec: a data point of a Histogram
    ([metricdata.HistogramDataPoint], declared outside the exporter's
    source). *)
Record HistogramDataPoint := {
  hAttributes : AttributeSet;
  hCount : Z;
  hBounds : list float64;
  hBucketCounts : list Z;
  hSum : float64
}.

(** Modelled from the spec: the Data payloads ([metricdata.Sum[N]],
    [metricdata.Gauge[N]], [metricdata.Histogram], declared outside the
    exporter's source). *)
Record Sum (N : Type) := {
  sumDataPoints : list (DataPoint N);
  IsMonotonic : bool
}.
Arguments sumDataPoints {N}.
Arguments IsMonotonic {N}.

Record Gauge (N : Type) := { gaugeDataPoints : list (DataPoint N) }.
Arguments gaugeDataPoints {N}.

Record Histogram := { histDataPoints : list HistogramDataPoint }.

(** The dynamic type of [m.Data], as the type switch of [Collect] sees
    it; [DataOther] is any value none of its cases matches. *)
Inductive Aggregation :=
| DataHistogram (v : Histogram)
| DataSumInt64 (v : Sum Z)
| DataSumFloat64 (v : Sum float64)
| DataGaugeInt64 (v : Gauge Z)
| DataGaugeFloat64 (v : Gauge float64)
| DataOther.

(** Modelled from the spec: a metric, a scope's metrics and the snapshot
    ([metricdata.Metrics], [metricdata.ScopeMetrics],
    [metricdata.ResourceMetrics], declared outside the exporter's source);
    [Resource] is the attribute set [metrics.Resource.Set()]. *)
Record Metrics := {
  Name : string;
  Description : string;
  MetricUnit : Unit;
  Data : Aggregation
}.

Record ScopeMetrics := { ScopeMetricsList : list Metrics }.

Record ResourceMetrics := {
  Resource : AttributeSet;
  ScopeMetricsOf : list ScopeMetrics
}.

(** *** AttributeEncoder *)

Definition sanitizeRune (r : Z) : Z :=
  if IsLetter r || IsDigit r || (r =? rune ":") || (r =? rune "_")
  then r else rune "_".

(** The first loop of [getAttrs]: the values of the attributes, grouped
    under their sanitized key. *)
Definition groupAttrs (attrs : AttributeSet) : gmap string (list string) :=
  foldl (λ (keysMap : gmap string (list string)) kv,
           let key := GoString.Map sanitizeRune (Key kv) in
           match keysMap !! key with
           | None => <[key := [Emit (Value kv)]]> keysMap
           | Some vals => <[key := vals ++ [Emit (Value kv)]]> keysMap
           end)
        ∅ attrs.

(** [getAttrs], given the order [order] in which the runtime visits
    [keysMap] in the second loop. *)
Definition getAttrs
    (order : gmap string (list string) → list (string * list string))
    (attrs : AttributeSet) : list string * list string :=
  let keysMap := groupAttrs attrs in
  foldl (λ '(keys, values) '(key, vals),
           let vals := sortSlice (λ i j, Nat.ltb i j) vals in
           (keys ++ [key], values ++ [Join vals ";"]))
        ([], []) (order keysMap).

(** *** UnitSuffixResolver and the metric name *)

(** The collector; [createTargetInfoOnce] holds whether the [sync.Once]
    has run. *)
Record collector := {
  disableTargetInfo : bool;
  withoutUnits : bool;
  targetInfo : PromMetric;
  createTargetInfoOnce : bool
}.

Definition unitSuffixes : list (Unit * string) :=
  [ (Dimensionless, "_ratio");
    (Bytes, "_bytes");
    (Milliseconds, "_milliseconds") ].

(** [unitSuffixes[u]] *)
Definition unitSuffix (u : Unit) : option string :=
  snd <$> find (λ kv, bool_decide (kv.1 = u)) unitSuffixes.

Definition getName (c : collector) (m : Metrics) : option string :=
  name ← sanitizeName (Name m);
  if withoutUnits c then Some name
  else match unitSuffix (MetricUnit m) with
       | Some suffix => Some (name +:+ suffix)
       | None => Some name
       end.

(** *** Effects

    What a scrape does besides computing: it sends records on the
    channel [ch], reports errors to the fault handler [otel.Handle], and
    ranges over maps. A computation can also panic ([None]). *)
Record Env := {
  ch : list PromMetric;
  handled : list Error;
  ranges : nat
}.

Definition M (A : Type) : Type := Env → option (A * Env).

#[global] Instance M_ret : MRet M := λ A a e, Some (a, e).

#[global] Instance M_bind : MBind M := λ A B f x e,
  match x e with
  | Some (a, e') => f a e'
  | None => None
  end.

(** [ch <- m], a send on the channel. *)
Definition send (m : PromMetric) : M unit :=
  λ e, Some (tt, {| ch := ch e ++ [m]; handled := handled e;
                    ranges := ranges e |}).

(** [otel.Handle(err)] *)
Definition Handle (err : Error) : M unit :=
  λ e, Some (tt, {| ch := ch e; handled := handled e ++ [err];
                    ranges := ranges e |}).

(** The order of the next [range] over a map. *)
Definition nextRange
  : M (gmap string (list string) → list (string * list string)) :=
  λ e, Some (runtimeOrder (ranges e),
             {| ch := ch e; handled := handled e;
                ranges := S (ranges e) |}).

(** A value that the code computes, or a panic. *)
Definition orPanic {A} (x : option A) : M A :=
  λ e, match x with Some a => Some (a, e) | None => None end.

(** [for _, x := range l { body }] *)
Fixpoint forEach {A} (l : list A) (body : A → M unit) : M unit :=
  match l with
  | [] => mret tt
  | x :: rest => body x;; forEach rest body
  end.

(** *** MetricTranslator *)

Definition addHistogramMetric (histogram : Histogram) (m : Metrics)
    (name : string) : M unit :=
  forEach (histDataPoints histogram) (λ dp,
    order ← nextRange;
    let '(keys, values) := getAttrs order (hAttributes dp) in
    let desc := NewDesc name (Description m) keys in
    buckets ← orPanic (cumulativeBuckets (hBounds dp) (hBucketCounts dp));
    match NewConstHistogram desc (hCount dp) (hSum dp) buckets values with
    | inr err => Handle err
    | inl m => send m
    end).

Definition counterSuffix : string := "_total".

Definition addSumMetric {N} `{!Number N} (sum : Sum N) (m : Metrics)
    (name : string) : M unit :=
  let valueType := CounterValue in
  let valueType := if negb (IsMonotonic sum) then GaugeValue
                   else valueType in
  let name := if IsMonotonic sum then name +:+ counterSuffix else name in
  forEach (sumDataPoints sum) (λ dp,
    order ← nextRange;
    let '(keys, values) := getAttrs order (dpAttributes dp) in
    let desc := NewDesc name (Description m) keys in
    match NewConstMetric desc valueType (toFloat64 (dpValue dp)) values with
    | inr err => Handle err
    | inl m => send m
    end).

Definition addGaugeMetric {N} `{!Number N} (gauge : Gauge N) (m : Metrics)
    (name : string) : M unit :=
  forEach (gaugeDataPoints gauge) (λ dp,
    order ← nextRange;
    let '(keys, values) := getAttrs order (dpAttributes dp) in
    let desc := NewDesc name (Description m) keys in
    match NewConstMetric desc GaugeValue (toFloat64 (dpValue dp)) values with
    | inr err => Handle err
    | inl m => send m
    end).

(** *** ResourceInfoBuilder and Collector *)

Definition targetInfoMetricName : string := "target_info".
Definition targetInfoDescription : string := "Target metadata".

Definition createInfoMetric (name description : string)
    (res : AttributeSet) : M (PromMetric + Error) :=
  order ← nextRange;
  let '(keys, values) := getAttrs order res in
  let desc := NewDesc name description keys in
  mret (NewConstMetric desc GaugeValue (float64_of_Z 1) values).

(** [c.createTargetInfoOnce.Do(func() { ... })] *)
Definition createTargetInfo (c : collector) (metrics : ResourceMetrics)
  : M collector :=
  if createTargetInfoOnce c then mret c
  else
    r ← createInfoMetric targetInfoMetricName targetInfoDescription
                         (Resource metrics);
    match r with
    | inr err =>
      Handle err;;
      mret {| disableTargetInfo := true; withoutUnits := withoutUnits c;
             targetInfo := nilMetric; createTargetInfoOnce := true |}
    | inl targetInfo =>
      mret {| disableTargetInfo := disableTargetInfo c;
             withoutUnits := withoutUnits c;
             targetInfo := targetInfo; createTargetInfoOnce := true |}
    end.

(** The body of the loop over the metrics of a scope: the type switch on
    [m.Data]. *)
Definition translateMetric (c : collector) (m : Metrics) : M unit :=
  match Data m with
  | DataHistogram v =>
    name ← orPanic (getName c m); addHistogramMetric v m name
  | DataSumInt64 v =>
    name ← orPanic (getName c m); addSumMetric v m name
  | DataSumFloat64 v =>
    name ← orPanic (getName c m); addSumMetric v m name
  | DataGaugeInt64 v =>
    name ← orPanic (getName c m); addGaugeMetric v m name
  | DataGaugeFloat64 v =>
    name ← orPanic (getName c m); addGaugeMetric v m name
  | DataOther => mret tt
  end.

(** [Collect] from the statement after the error check on. *)
Definition emitAll (c : collector) (metrics : ResourceMetrics)
  : M collector :=
  c ← createTargetInfo c metrics;
  (if negb (disableTargetInfo c) then send (targetInfo c) else mret tt);;
  forEach (ScopeMetricsOf metrics) (λ scopeMetrics,
    forEach (ScopeMetricsList scopeMetrics) (translateMetric c));;
  mret c.

(** [Collect]; [collected] is what [c.reader.Collect] returned, and the
    result is the collector as the call leaves it. *)
Definition Collect (c : collector)
    (collected : ResourceMetrics * option Error) : M collector :=
  let '(metrics, err) := collected in
  match err with
  | Some err =>
    Handle err;;
    if bool_decide (err = ErrReaderNotRegistered) then mret c
    else emitAll c metrics
  | None => emitAll c metrics
  end.

End Exporter.

(** An attribute set, outside the section that introduced it. *)
Abbreviation AttributeSet := (list KeyValue).

Arguments dpAttributes {_ N} _.
Arguments dpValue {_ N} _.
Arguments sumDataPoints {_ N} _.
Arguments IsMonotonic {_ N} _.
Arguments gaugeDataPoints {_ N} _.

(** ** The vocabulary of the specification *)

(** The target name grammar: character 0 is in {A–Z, a–z, _, :} and every
    later character is in {A–Z, a–z, 0–9, _, :}. *)
Definition nameStart (a : ascii) : bool :=
  let r := rune a in
  ((rune "A" <=? r) && (r <=? rune "Z"))
  || ((rune "a" <=? r) && (r <=? rune "z"))
  || (r =? rune "_") || (r =? rune ":").

Definition nameChar (a : ascii) : bool :=
  nameStart a || ((rune "0" <=? rune a) && (rune a <=? rune "9")).

Fixpoint allChars (P : ascii → bool) (s : string) : bool :=
  match s with
  | EmptyString => true
  | String a t => P a && allChars P t
  end.

Definition matchesGrammar (s : string) : bool :=
  match s with
  | EmptyString => true
  | String a t => nameStart a && allChars nameChar t
  end.

(** [utf8.ValidString]: the string consists of valid UTF-8 encodings
    only, so that no byte of it decodes to U+FFFD for being invalid. *)
Fixpoint validFrom (skip : nat) (s : string) : bool :=
  match s with
  | EmptyString => true
  | String a t =>
    match skip with
    | S k => validFrom k t
    | O => let '(r, w) := decodeRune s in
           ((rune a <? 0x80) || (1 <? w)) && validFrom (Z.to_nat w - 1) t
    end
  end.

Definition ValidString (s : string) : bool := validFrom 0 s.

(** A string all of whose characters are valid at their index, counted
    from [k]. *)
Fixpoint allValidFrom (k : Z) (s : string) : bool :=
  match s with
  | EmptyString => true
  | String a t => valid k (rune a) && allValidFrom (k + 1) t
  end.

(** What the second loop of [sanitizeName] writes for the runes it
    visits. *)
Definition restBytes (it : list (Z * Z)) : string :=
  foldr (λ '(_, c) acc,
           String (if valid 1 c then byte c else replacement) acc)
        "" it.

(** The sum of a sequence of counts, in the integers. *)
Definition sumZ (l : list Z) : Z := foldr Z.add 0 l.

(** Bounds in strictly ascending order: each is less than the next. *)
Fixpoint strictlyAscending (bounds : list float64) : bool :=
  match bounds with
  | x :: rest =>
    match rest with
    | y :: _ => SFltb x y && strictlyAscending rest
    | [] => true
    end
  | [] => true
  end.

(** What one data point of a Sum, a Gauge or a Histogram comes to when the
    [k]-th map iteration of the run encodes its attributes: the record, or
    the error of the target's constructor. *)
Definition scalarOutcome `{Collaborators} {N} `{!Number N}
    (name description : string) (valueType : ValueType) (k : nat)
    (dp : DataPoint N) : option (PromMetric + Error) :=
  let '(keys, values) := getAttrs (runtimeOrder k) (dpAttributes dp) in
  Some (NewConstMetric (NewDesc name description keys) valueType
                       (toFloat64 (dpValue dp)) values).

Definition histogramOutcome `{Collaborators}
    (name description : string) (k : nat) (dp : HistogramDataPoint)
  : option (PromMetric + Error) :=
  let '(keys, values) := getAttrs (runtimeOrder k) (hAttributes dp) in
  buckets ← cumulativeBuckets (hBounds dp) (hBucketCounts dp);
  Some (NewConstHistogram (NewDesc name description keys)
                          (hCount dp) (hSum dp) buckets values).

(** The environment after [err] has been reported to the fault handler. *)
Definition reported `{Collaborators} (err : Error) (e : Env) : Env :=
  {| ch := ch e; handled := handled e ++ [err]; ranges := ranges e |}.

(** The outcomes of a sequence of data points when the run has made [k]
    map iterations before. *)
Definition outcomesFrom {A B} (outcome : nat → A → B) (k : nat)
    (dps : list A) : list B :=
  imap (λ i, outcome (k + i)%nat) dps.

(** The sanitized key of an attribute, and the emitted values of the
    attributes of a set whose key sanitizes to [k], in the order of the
    set. *)
Definition sanitizedKey `{Collaborators} (kv : KeyValue) : string :=
  GoString.Map sanitizeRune (Key kv).

Definition valuesUnder `{Collaborators} (k : string) (attrs : AttributeSet)
  : list string :=
  (λ kv, Emit (Value kv)) <$> filter (λ kv, sanitizedKey kv = k) attrs.

(** The labels of an encoding: its names paired with its values. *)
Definition labels (encoded : list string * list string)
  : list (string * string) :=
  zip encoded.1 encoded.2.

(** A computation that only adds to what has been sent and reported. *)
Definition grows `{Collaborators} {A} (x : M A) : Prop :=
  ∀ e a e', x e = Some (a, e') →
            ch e `prefix_of` ch e' ∧ handled e `prefix_of` handled e'.

(** The records and the errors among a sequence of outcomes, in order. *)
Definition records {E} (l : list (PromMetric + E)) : list PromMetric :=
  omap (λ o, match o with inl m => Some m | inr _ => None end) l.

Definition errors {E} (l : list (PromMetric + E)) : list E :=
  omap (λ o, match o with inl _ => None | inr e => Some e end) l.

(** The environment after a loop has come to the outcomes [outs], one map
    iteration each: the records sent, the errors reported. *)
Definition absorb `{Collaborators} (outs : list (PromMetric + Error))
    (e : Env) : Env :=
  {| ch := ch e ++ records outs;
     handled := handled e ++ errors outs;
     ranges := (ranges e + length outs)%nat |}.

(** ** An instance to evaluate the exporter on

    Errors are their messages, attribute values are their text, units are
    their symbols; the Unicode tables are cut down to ASCII, [sort.Slice]
    with the exporter's [less] leaves the slice as it is, the runtime
    visits a map in one order on even iterations and in the opposite order
    on odd ones, and the target rejects a label name that starts with two
    underscores. *)
Module Demo.

Definition asciiLetter (r : Z) : bool :=
  ((rune "a" <=? r) && (r <=? rune "z"))
  || ((rune "A" <=? r) && (r <=? rune "Z")).

Definition asciiDigit (r : Z) : bool :=
  (rune "0" <=? r) && (r <=? rune "9").

Definition alternating (k : nat) (m : gmap string (list string))
  : list (string * list string) :=
  if Nat.even k then map_to_list m else reverse (map_to_list m).

Definition reserved (keys : list string) : option string :=
  if existsb (String.prefix "__") keys
  then Some "label name is reserved" else None.

#[export] Instance collaborators : Collaborators := {|
  Error := string;
  ErrReaderNotRegistered := "reader is not registered";
  AttrValue := string;
  Emit := λ v, v;
  Unit := string;
  Dimensionless := "1";
  Bytes := "By";
  Milliseconds := "ms";
  IsLetter := asciiLetter;
  IsDigit := asciiDigit;
  sortSlice := λ _ vals, vals;
  runtimeOrder := alternating;
  constMetricError := λ desc _ _ _, reserved (variableLabels desc);
  constHistogramError := λ desc _ _ _ _, reserved (variableLabels desc)
|}.

Definition kv (k v : string) : KeyValue := {| Key := k; Value := v |}.

Definition c0 : collector :=
  {| disableTargetInfo := false; withoutUnits := false;
     targetInfo := nilMetric; createTargetInfoOnce := false |}.

Definition e0 : Env := {| ch := []; handled := []; ranges := 0 |}.

Definition ok : DataPoint Z :=
  {| dpAttributes := [kv "a" "1"]; dpValue := 12 |}.

Definition bad : DataPoint Z :=
  {| dpAttributes := [kv "__a" "1"]; dpValue := 13 |}.

Definition requests (monotonic : bool) : Sum Z :=
  {| sumDataPoints := [ok; bad; ok]; IsMonotonic := monotonic |}.

Definition metric (name : string) (data : Aggregation) (u : string)
  : Metrics :=
  {| Name := name; Description := "d"; MetricUnit := u; Data := data |}.

Definition hist (attrs : AttributeSet) : HistogramDataPoint :=
  {| hAttributes := attrs; hCount := 10;
     hBounds := map float64_of_Z [1; 5; 10];
     hBucketCounts := [2; 3; 4; 1]; hSum := float64_of_Z 42 |}.

Definition snapshot : ResourceMetrics :=
  {| Resource := [kv "service.name" "x"];
     ScopeMetricsOf :=
       [ {| ScopeMetricsList :=
              [metric "requests" (DataSumInt64 (requests true)) "ms"] |} ] |}.

End Demo.

(** ** The rest of the exporter *)

Section Construction.

Context `{Collaborators}.

(** What [New] reads of the configuration that [newConfig] builds from
    the options: the two flags, and the answer of the configured
    registerer to [Register]. *)
Record config := {
  cfgDisableTargetInfo : bool;
  cfgWithoutUnits : bool;
  cfgRegister : collector → option Error
}.

(** The collector that [New] builds: the flags of the configuration, no
    target info yet, and a [sync.Once] that has not run. *)
Definition newCollector (cfg : config) : collector :=
  {| disableTargetInfo := cfgDisableTargetInfo cfg;
     withoutUnits := cfgWithoutUnits cfg;
     targetInfo := nilMetric;
     createTargetInfoOnce := false |}.

(** An [Exporter]: it embeds the reader and has no field of its own. *)
Variant Exporter := exporter.

(** [New]; [Errorf] is [fmt.Errorf("cannot register the collector: %w", _)]. *)
Definition New (Errorf : Error → Error) (cfg : config) : Exporter + Error :=
  let collector := newCollector cfg in
  match cfgRegister cfg collector with
  | Some err => inr (Errorf err)
  | None => inl exporter
  end.

(** [Describe]: nothing is sent on the channel of descriptors. *)
Definition Describe : list Desc := [].

(** The scrapes of a collector's lifetime, one [Collect] after the other,
    each on what the reader returned for it. *)
Fixpoint scrapes (c : collector)
    (collected : list (ResourceMetrics * option Error)) : M collector :=
  match collected with
  | [] => mret c
  | r :: rest => c ← Collect c r; scrapes c rest
  end.

(** A collector whose target info, once built and not disabled, is a
    record. *)
Definition targetInfoReady (c : collector) : Prop :=
  createTargetInfoOnce c = true → disableTargetInfo c = false →
  targetInfo c ≠ nilMetric.

(** A computation that leaves what was sent in place and adds only
    records that satisfy [P]. *)
Definition sendsOnly {A} (P : PromMetric → Prop) (x : M A) : Prop :=
  ∀ e a e', x e = Some (a, e') →
            ∃ new, ch e' = ch e ++ new ∧ Forall P new.

End Construction.

(** ** Sanitizing ASCII *)

Fixpoint mapChars (f : ascii → ascii) (s : string) : string :=
  match s with
  | EmptyString => EmptyString
  | String a t => String (f a) (mapChars f t)
  end.

Definition asciiOnly (s : string) : bool :=
  allChars (λ a, rune a <? 0x80) s.

Definition digitChar (a : ascii) : bool :=
  (rune "0" <=? rune a) && (rune a <=? rune "9").

(** The character, or an underscore in its place. *)
Definition keepIf (P : ascii → bool) (a : ascii) : ascii :=
  if P a then a else replacement.

(** A name with every character outside the grammar replaced by an
    underscore, and an underscore put in front of a leading digit. *)
Definition sanitizedAscii (n : string) : string :=
  match n with
  | EmptyString => EmptyString
  | String a t =>
    if digitChar a
    then String "_" (String a (mapChars (keepIf nameChar) t))
    else String (keepIf nameStart a) (mapChars (keepIf nameChar) t)
  end.

(** ** The file client of the OTLP example *)

Module FileClient.

Section Client.

Context {Error Message : Type}.

(** [protojson.Marshal] *)
Variable Marshal : Message → string + Error.

(** The error, if any, with which
    [os.OpenFile(name, os.O_APPEND|os.O_WRONLY|os.O_CREATE, 0600)] fails
    on the files as they are. *)
Variable openError : gmap string string → string → option Error.

(** The error, if any, with which [file.Write(bytes)] fails, and the
    number of bytes it has written by then. *)
Variable writeError :
  gmap string string → string → string → option (nat * Error).

Record fileClient := { fileName : string }.

(** [os.OpenFile] with the flags of [UploadMetrics]: a file that does not
    exist is created, empty. *)
Definition OpenFile (files : gmap string string) (name : string)
  : gmap string string + Error :=
  match openError files name with
  | Some err => inr err
  | None =>
    inl (match files !! name with
         | Some _ => files
         | None => <[name := ""]> files
         end)
  end.

(** [file.Write] on a file opened with [O_APPEND]: the bytes go to its
    end. *)
Definition Write (files : gmap string string) (name : string)
    (bytes : string) : gmap string string * option Error :=
  match writeError files name bytes with
  | None => (alter (λ old, old +:+ bytes) name files, None)
  | Some (n, err) =>
    (alter (λ old, old +:+ substring 0 n bytes) name files, Some err)
  end.

(** [UploadMetrics]: the error returned and the files as the call leaves
    them. *)
Definition UploadMetrics (f : fileClient) (rms : Message)
    (files : gmap string string) : option Error * gmap string string :=
  match OpenFile files (fileName f) with
  | inr err => (Some err, files)
  | inl files =>
    match Marshal rms with
    | inr err => (Some err, files)
    | inl bytes =>
      let bytes := bytes +:+ String "010" "" in
      let '(files, err) := Write files (fileName f) bytes in
      match err with
      | Some err => (Some err, files)
      | None => (None, files)
      end
    end
  end.

(** [ForceFlush] and [Shutdown] *)
Definition ForceFlush (f : fileClient) : option Error := None.
Definition Shutdown (f : fileClient) : option Error := None.

End Client.

End FileClient.

(** An instance to evaluate the file client on: messages are their text,
    put between braces by [Marshal], which rejects the empty message; a
    file without a name cannot be opened; writes succeed. *)
Module FileDemo.

Definition Marshal (rms : string) : string + string :=
  if decide (rms = "") then inr "nothing to marshal"
  else inl ("{" +:+ rms +:+ "}").

Definition openError (files : gmap string string) (name : string)
  : option string :=
  if decide (name = "") then Some "open: no such file or directory"
  else None.

Definition writeError (files : gmap string string) (name bytes : string)
  : option (nat * string) := None.

Definition client : FileClient.fileClient :=
  {| FileClient.fileName := "./otlp.json" |}.

Definition upload : string → gmap string string
                    → option string * gmap string string :=
  FileClient.UploadMetrics Marshal openError writeError client.

End FileDemo.

(** ** Strings *)

Lemma app_cons (a : ascii) (s t : string) :
  String a s +:+ t = String a (s +:+ t).
Proof. done. Qed.

Lemma app_nil_r (s : string) : s +:+ "" = s.
Proof. induction s as [|a s IH]; [done|]. by rewrite app_cons, IH. Qed.

Lemma app_assoc (s t u : string) : (s +:+ t) +:+ u = s +:+ t +:+ u.
Proof. induction s as [|a s IH]; [done|]. by rewrite !app_cons, IH. Qed.

Lemma len_app (s t : string) : len (s +:+ t) = len s + len t.
Proof.
  unfold len. induction s as [|a s IH]; [done|].
  rewrite app_cons. cbn [String.length]. lia.
Qed.

Lemma len_nonneg (s : string) : 0 ≤ len s.
Proof. unfold len. lia. Qed.

Lemma substring_prefix (p s : string) :
  substring 0 (String.length p) (p +:+ s) = p.
Proof.
  induction p as [|a p IH].
  - by destruct s.
  - rewrite app_cons. cbn. by rewrite IH.
Qed.

Lemma allChars_app (P : ascii → bool) (s t : string) :
  allChars P (s +:+ t) = allChars P s && allChars P t.
Proof.
  induction s as [|a s IH]; [done|].
  rewrite app_cons. cbn. rewrite IH. by destruct (P a).
Qed.

(** ** Runes *)

(** Replaces the runes of character literals by their numbers. *)
Ltac runes :=
  repeat match goal with
         | |- context [rune (Ascii ?a ?b ?c ?d ?e ?f ?g ?h)] =>
           let v := eval vm_compute in (rune (Ascii a b c d e f g h)) in
           change (rune (Ascii a b c d e f g h)) with v
         end.

Lemma rune_bounds (a : ascii) : 0 ≤ rune a < 256.
Proof. unfold rune. pose proof (N_ascii_bounded a). lia. Qed.

(** Brings the bounds of the bytes of the goal into the context. *)
Ltac rune_facts :=
  repeat match goal with
         | |- context [rune ?x] =>
           lazymatch goal with
           | _ : 0 ≤ rune x < 256 |- _ => fail
           | _ => pose proof (rune_bounds x)
           end
         end.

Lemma byte_rune (a : ascii) : byte (rune a) = a.
Proof.
  unfold byte. rewrite Z.mod_small by apply rune_bounds.
  unfold rune. rewrite N2Z.id. apply ascii_N_embedding.
Qed.

Lemma rune_byte (c : Z) : 0 ≤ c < 256 → rune (byte c) = c.
Proof.
  intros Hc. unfold rune, byte. rewrite Z.mod_small by done.
  rewrite N_ascii_embedding by lia. lia.
Qed.

Lemma valid_ascii (i c : Z) : valid i c = true → 0 ≤ c < 128.
Proof. unfold valid. runes. lia. Qed.

Lemma valid_nameStart (a : ascii) : valid 0 (rune a) = nameStart a.
Proof.
  unfold valid, nameStart. cbn zeta. rewrite andb_false_r, orb_false_r.
  by destruct (_ && _), (_ && _).
Qed.

Lemma valid_nameChar (i : Z) (a : ascii) :
  valid i (rune a) = true → nameChar a = true.
Proof.
  unfold valid, nameChar, nameStart. cbn zeta.
  destruct (0 <? i); rewrite ?andb_true_r, ?andb_false_r, ?orb_false_r;
    by destruct (_ && _), (_ && _), (_ =? _), (_ =? _), (_ && _).
Qed.

Lemma decodeRune_ascii (a : ascii) (t : string) :
  rune a < 0x80 → decodeRune (String a t) = (rune a, 1).
Proof. intros Ha. cbn. by rewrite (proj2 (Z.ltb_lt _ _) Ha). Qed.

(** A byte that is not ASCII starts a rune that is not ASCII. *)
Lemma decodeRune_not_ascii (a : ascii) (t : string) (r w : Z) :
  0x80 ≤ rune a → decodeRune (String a t) = (r, w) → 0x80 ≤ r.
Proof.
  intros Ha. cbn [decodeRune]. cbn zeta.
  rewrite (proj2 (Z.ltb_ge _ _) Ha).
  pose proof (rune_bounds a) as Hb.
  unfold acceptRange, continuation, RuneError.
  repeat match goal with
         | |- context [String ?x _] => fail
         | |- (match ?t with EmptyString => _ | String _ _ => _ end) = _ → _ =>
           destruct t
         | |- (if ?b then _ else _) = _ → _ => destruct b eqn:?
         | |- (match (if ?b then _ else _) with _ => _ end) = _ → _ =>
           destruct b eqn:?
         | |- (match ?t with EmptyString => _ | String _ _ => _ end) = _ → _ =>
           destruct t
         end;
    intros [= <- <-]; try lia;
    rune_facts; Z.div_mod_to_equations; lia.
Qed.

(** ** The name sanitizer *)

Lemma rangeFrom_ascii (k : Z) (a : ascii) (t : string) :
  rune a < 0x80 →
  rangeFrom 0 k (String a t) = (k, rune a) :: rangeFrom 0 (k + 1) t.
Proof.
  intros Ha. cbn [rangeFrom]. by rewrite decodeRune_ascii.
Qed.

(** The runes visited do not depend on the index the loop starts from. *)
Lemma rangeFrom_runes (skip : nat) (i j : Z) (s : string) :
  (rangeFrom skip i s).*2 = (rangeFrom skip j s).*2.
Proof.
  revert skip i j. induction s as [|a t IH]; intros skip i j; [done|].
  cbn [rangeFrom]. destruct skip as [|skip]; [|apply IH].
  destruct (decodeRune _) as [r w]. cbn. f_equal. apply IH.
Qed.

Lemma restBytes_cons (i c : Z) (it : list (Z * Z)) :
  restBytes ((i, c) :: it)
  = String (if valid 1 c then byte c else replacement) (restBytes it).
Proof. done. Qed.

Lemma restBytes_runes (it1 it2 : list (Z * Z)) :
  it1.*2 = it2.*2 → restBytes it1 = restBytes it2.
Proof.
  revert it2. induction it1 as [|[i c] it1 IH]; intros [|[j d] it2] Heq;
    try done.
  cbn in Heq. injection Heq as -> Heq.
  by rewrite !restBytes_cons, (IH it2).
Qed.

Lemma sanitizeRest_buf (it : list (Z * Z)) (b : Builder) :
  buf (foldl (λ b '(_, c),
                if valid 1 c then WriteByte (byte c) b
                else WriteByte replacement b) b it)
  = buf b +:+ restBytes it.
Proof.
  revert b. induction it as [|[i c] it IH]; intros b.
  { cbn. by rewrite app_nil_r. }
  cbn [foldl]. rewrite IH, restBytes_cons.
  destruct (valid 1 c); cbn [WriteByte WriteString buf];
    by rewrite app_assoc.
Qed.

Lemma restBytes_nameChars (it : list (Z * Z)) :
  allChars nameChar (restBytes it) = true.
Proof.
  induction it as [|[i c] it IH]; [done|].
  rewrite restBytes_cons. cbn [allChars]. rewrite IH, andb_true_r.
  destruct (valid 1 c) eqn:Hc; [|done].
  apply (valid_nameChar 1). rewrite rune_byte; [done|].
  apply valid_ascii in Hc. lia.
Qed.

Lemma allValidFrom_app (k : Z) (s t : string) :
  allValidFrom k (s +:+ t)
  = allValidFrom k s && allValidFrom (k + len s) t.
Proof.
  revert k. induction s as [|a s IH]; intros k.
  { cbn. unfold len. cbn. by rewrite Z.add_0_r. }
  rewrite app_cons. cbn [allValidFrom]. rewrite IH, andb_assoc.
  do 2 f_equal. unfold len. cbn [String.length]. lia.
Qed.

Lemma allValidFrom_nameChars (k : Z) (s : string) :
  allValidFrom k s = true → allChars nameChar s = true.
Proof.
  revert k. induction s as [|a s IH]; intros k; [done|].
  cbn. intros [Ha Hs]%andb_true_iff.
  by rewrite (valid_nameChar k a Ha), (IH (k + 1)).
Qed.

Lemma allValidFrom_grammar (s : string) :
  allValidFrom 0 s = true → matchesGrammar s = true.
Proof.
  destruct s as [|a s]; [done|]. cbn. intros [Ha Hs]%andb_true_iff.
  by rewrite <- valid_nameStart, Ha, (allValidFrom_nameChars 1 s).
Qed.

Lemma buf_Grow (n : Z) (b : Builder) : buf (Grow n b) = buf b.
Proof. unfold Grow. by destruct (_ <? _). Qed.

Lemma Cap_WriteString (s : string) (b : Builder) :
  0 < Cap b → 0 < Cap (WriteString s b).
Proof. cbn. lia. Qed.

Lemma Cap_WriteByte (c : ascii) (b : Builder) :
  0 < Cap b → 0 < Cap (WriteByte c b).
Proof. apply Cap_WriteString. Qed.

Lemma Cap_Grow (n : Z) : 0 < n → 0 < Cap (Grow n newBuilder).
Proof.
  intros Hn. unfold Grow, newBuilder. cbn [Cap buf].
  replace (0 - len "" <? n) with true
    by (symmetry; apply Z.ltb_lt; unfold len; cbn; lia).
  cbn. lia.
Qed.

(** The first loop of [sanitizeName], run on the part [s] of the name
    that follows the bytes [p] already seen: either every character of [s]
    is valid and nothing is written, or the buffer holds a valid part of
    the name followed by an underscore. *)
Lemma sanitizeScan_spec (s p : string) (b' : Builder) (n' : string) :
  sanitizeScan (p +:+ s) (rangeFrom 0 (len p) s) newBuilder = Some (b', n') →
  (b' = newBuilder ∧ n' = p +:+ s ∧ allValidFrom (len p) s = true)
  ∨ (0 < Cap b'
     ∧ ∃ q, allValidFrom (len p) q = true
            ∧ (buf b' = (p +:+ q) +:+ "_"
               ∨ (len p = 0 ∧ buf b' = "_"))).
Proof.
  revert p. induction s as [|a t IH]; intros p.
  { cbn. intros [= <- <-]. by left. }
  cbn [rangeFrom]. destruct (decodeRune (String a t)) as [r w] eqn:Hdec.
  cbn [sanitizeScan]. destruct (valid (len p) r) eqn:Hvalid.
  - assert (rune a < 0x80) as Ha.
    { destruct (Z.lt_ge_cases (rune a) 0x80) as [|Hge]; [done|].
      apply (decodeRune_not_ascii _ _ _ _ Hge) in Hdec.
      apply valid_ascii in Hvalid. lia. }
    rewrite decodeRune_ascii in Hdec by done. injection Hdec as <- <-.
    change (Z.to_nat 1 - 1)%nat with 0%nat.
    replace (p +:+ String a t) with ((p +:+ String a "") +:+ t)
      by (by rewrite app_assoc).
    replace (len p + 1) with (len (p +:+ String a "")) by (by rewrite len_app).
    intros [(-> & -> & Hall)|(Hcap & q & Hq & Hbuf)]%IH.
    + left. split_and!; [done..|]. cbn [allValidFrom].
      rewrite len_app in Hall. change (len (String a "")) with 1 in Hall.
      by rewrite Hvalid, Hall.
    + right. split; [done|]. exists (String a q). split.
      * cbn [allValidFrom]. rewrite len_app in Hq.
        change (len (String a "")) with 1 in Hq. by rewrite Hvalid, Hq.
      * destruct Hbuf as [->|[Hlen _]].
        -- left. by rewrite !app_assoc.
        -- rewrite len_app in Hlen. pose proof (len_nonneg p).
           unfold len at 2 in Hlen. cbn in Hlen. lia.
  - destruct ((len p =? 0) && (rune "0" <=? r) && (r <=? rune "9"))
      eqn:Hdigit.
    + intros [= <- <-]. right. split.
      * apply Cap_WriteByte, Cap_Grow.
        pose proof (len_nonneg (p +:+ String a t)). lia.
      * exists "". split; [done|]. right. split.
        -- by apply andb_true_iff in Hdigit
             as [[?%Z.eqb_eq _]%andb_true_iff _].
        -- cbn [WriteByte WriteString buf]. by rewrite buf_Grow.
    + unfold sliceTo.
      assert (0 < len (p +:+ String a t)) as Hlen.
      { rewrite len_app. pose proof (len_nonneg p). unfold len at 2. cbn.
        lia. }
      replace ((0 <=? len p) && (len p <=? len (p +:+ String a t)))
        with true.
      2:{ symmetry. apply andb_true_iff. rewrite len_app.
          pose proof (len_nonneg p). pose proof (len_nonneg (String a t)).
          split; [apply Z.leb_le|apply Z.leb_le]; lia. }
      cbn [mbind option_bind].
      replace (Z.to_nat (len p)) with (String.length p)
        by (unfold len; lia).
      rewrite substring_prefix.
      destruct (sliceFrom _ _) as [rest|]; [|done].
      cbn [mbind option_bind]. intros [= <- <-]. right. split.
      * by apply Cap_WriteByte, Cap_WriteString, Cap_Grow.
      * exists "". split; [done|]. left.
        cbn [WriteByte WriteString buf]. rewrite buf_Grow.
        by rewrite app_nil_r.
Qed.

(** Whenever [sanitizeName] returns, what it returns matches the target
    name grammar. *)
Lemma sanitizeName_grammar (n out : string) :
  sanitizeName n = Some out → matchesGrammar out = true.
Proof.
  unfold sanitizeName.
  destruct (sanitizeScan n (rangeString n) newBuilder) as [[b' n']|] eqn:Hscan;
    [|done].
  cbn [mbind option_bind].
  apply (sanitizeScan_spec n "") in Hscan
    as [(-> & -> & Hall)|(Hcap & q & Hq & Hbuf)].
  - cbn. intros [= <-]. by apply allValidFrom_grammar.
  - rewrite (proj2 (Z.eqb_neq _ _)) by lia. intros [= <-].
    unfold sanitizeRest. rewrite sanitizeRest_buf.
    pose proof (restBytes_nameChars (rangeString n')) as Hrest.
    destruct Hbuf as [->|[_ ->]]; [|done].
    change ("" +:+ q) with q. rewrite app_assoc.
    destruct q as [|a q].
    + done.
    + rewrite app_cons. cbn [matchesGrammar].
      cbn [allValidFrom] in Hq. apply andb_true_iff in Hq as [Ha Hq].
      change (len "") with 0 in Ha. rewrite <- valid_nameStart, Ha.
      rewrite allChars_app, (allValidFrom_nameChars _ _ Hq).
      cbn. exact Hrest.
Qed.

(** A rune decoded from more than one byte has the width of its
    encoding, and its bytes are in the string. *)
Lemma decodeRune_width (a : ascii) (t : string) (r w : Z) :
  decodeRune (String a t) = (r, w) → 1 < w →
  RuneLen r = w ∧ w ≤ len (String a t).
Proof.
  cbn [decodeRune]. cbn zeta.
  unfold acceptRange, continuation, RuneError, RuneLen, len.
  repeat match goal with
         | |- (match ?t with EmptyString => _ | String _ _ => _ end) = _ → _ =>
           destruct t
         | |- (if ?b then _ else _) = _ → _ => destruct b eqn:?
         | |- (match (if ?b then _ else _) with _ => _ end) = _ → _ =>
           destruct b eqn:?
         end;
    intros [= <- <-] Hw; try lia;
    cbn [String.length]; rune_facts;
    repeat match goal with
           | |- context [if ?b then _ else _] => destruct b eqn:?
           end;
    Z.div_mod_to_equations; lia.
Qed.

Lemma sanitizeScan_total (s p : string) :
  ValidString s = true →
  is_Some (sanitizeScan (p +:+ s) (rangeFrom 0 (len p) s) newBuilder).
Proof.
  unfold ValidString. revert p. induction s as [|a t IH]; intros p Hvalid.
  { by eexists. }
  cbn [rangeFrom validFrom] in *.
  destruct (decodeRune (String a t)) as [r w] eqn:Hdec.
  apply andb_true_iff in Hvalid as [Hfirst Hvalid].
  cbn [sanitizeScan]. destruct (valid (len p) r) eqn:Hr.
  - assert (rune a < 0x80) as Ha.
    { destruct (Z.lt_ge_cases (rune a) 0x80) as [|Hge]; [done|].
      apply (decodeRune_not_ascii _ _ _ _ Hge) in Hdec.
      apply valid_ascii in Hr. lia. }
    rewrite decodeRune_ascii in Hdec by done. injection Hdec as <- <-.
    change (Z.to_nat 1 - 1)%nat with 0%nat in *.
    replace (p +:+ String a t) with ((p +:+ String a "") +:+ t)
      by (by rewrite app_assoc).
    replace (len p + 1) with (len (p +:+ String a "")) by (by rewrite len_app).
    by apply IH.
  - destruct (_ && _); [by eexists|].
    assert (RuneLen r = w ∧ 1 ≤ w ≤ len (String a t)) as [Hlen Hw].
    { apply orb_true_iff in Hfirst as [Ha%Z.ltb_lt|Hw%Z.ltb_lt].
      - rewrite decodeRune_ascii in Hdec by done. injection Hdec as <- <-.
        unfold RuneLen, len. cbn [String.length]. rune_facts.
        repeat match goal with
               | |- context [if ?b then _ else _] => destruct b eqn:?
               end; lia.
      - destruct (decodeRune_width _ _ _ _ Hdec Hw). lia. }
    pose proof (len_nonneg p). pose proof (len_app p (String a t)).
    unfold sliceTo, sliceFrom. rewrite Hlen.
    rewrite !(proj2 (andb_true_iff _ _))
      by (split; apply Z.leb_le; lia).
    by eexists.
Qed.

(** On every string that is valid UTF-8, [sanitizeName] returns. *)
Lemma sanitizeName_total_on_valid_utf8 (n : string) :
  ValidString n = true → is_Some (sanitizeName n).
Proof.
  intros Hvalid. unfold sanitizeName, rangeString.
  destruct (sanitizeScan_total n "" Hvalid) as [[b' n'] Hscan].
  change ("" +:+ n) with n in Hscan. change (len "") with 0 in Hscan.
  rewrite Hscan. cbn [mbind option_bind]. by destruct (_ =? _).
Qed.

Lemma sanitizeRest_newBuilder (n : string) :
  buf (sanitizeRest n newBuilder) = restBytes (rangeString n).
Proof. unfold sanitizeRest. by rewrite sanitizeRest_buf. Qed.

(** C3, as amended: [sanitizeName] puts a single underscore in front of a
    leading digit and keeps the digit; what follows the digit is written
    as the second loop writes any later character. In particular
    [sanitizeName("0abc")] is ["_0abc"]. *)
Theorem sanitizeName_prefixes_leading_digit (d : ascii) (rest : string) :
  rune "0" ≤ rune d ≤ rune "9" →
  sanitizeName (String d rest)
  = Some (String "_" (String d (buf (sanitizeRest rest newBuilder)))).
Proof.
  runes. intros Hd.
  assert (valid 0 (rune d) = false) as Hv0 by (unfold valid; runes; lia).
  assert (valid 1 (rune d) = true) as Hv1 by (unfold valid; runes; lia).
  unfold sanitizeName, rangeString.
  rewrite rangeFrom_ascii by lia. cbn [sanitizeScan]. rewrite Hv0.
  replace ((0 =? 0) && (rune "0" <=? rune d) && (rune d <=? rune "9"))
    with true by (runes; lia).
  cbn [mbind option_bind].
  rewrite (proj2 (Z.eqb_neq _ _)).
  2:{ pose proof (Cap_WriteByte replacement _
                    (Cap_Grow (len (String d rest) + 1)
                       ltac:(pose proof (len_nonneg (String d rest)); lia))).
      lia. }
  f_equal. unfold sanitizeRest at 1. rewrite sanitizeRest_buf.
  cbn [WriteByte WriteString buf]. rewrite buf_Grow.
  unfold rangeString. rewrite rangeFrom_ascii by lia.
  rewrite restBytes_cons, Hv1, byte_rune, sanitizeRest_newBuilder.
  cbn. do 2 f_equal. apply restBytes_runes, rangeFrom_runes.
Qed.

(** The same slip of the width loses bytes where it does not panic:
    in "a", 0xFF, "bcd" the two bytes after the invalid one are dropped. *)
Lemma sanitizeName_drops_bytes_after_invalid_utf8 :
  sanitizeName ("a" +:+ String (ascii_of_N 255) "bcd") = Some "a_d".
Proof. by vm_compute. Qed.

(** C4, where the code departs from it: on the one-byte string 0xFF,
    which is not valid UTF-8, [sanitizeName] panics. The [range] loop
    yields U+FFFD for the byte, [utf8.RuneLen] of U+FFFD is 3, and the
    slice [n[i+width:]] is out of range. *)
Theorem sanitizeName_panics_on_invalid_utf8 :
  ValidString (String (ascii_of_N 255) "") = false
  ∧ sanitizeName (String (ascii_of_N 255) "") = None
  ∧ rangeString (String (ascii_of_N 255) "") = [(0, RuneError)]
  ∧ RuneLen RuneError = 3
  ∧ sliceFrom (String (ascii_of_N 255) "") (0 + 3) = None.
Proof. by vm_compute. Qed.

(** ** Floats as map keys *)

Lemma SFltb_not_eqb (x y : float64) : SFltb x y = true → SFeqb x y = false.
Proof.
  unfold SFltb, SFeqb. by destruct (SFcompare x y) as [[]|].
Qed.

Lemma SFeqb_refl (x : float64) : x ≠ S754_nan → SFeqb x x = true.
Proof.
  unfold SFeqb. destruct x as [s|s| |s m e]; intros Hx; try done; cbn.
  - by destruct s.
  - rewrite Z.compare_refl.
    change (Pos.compare_cont Eq m m) with (Pos.compare m m).
    rewrite Pos.compare_refl. by destruct s.
Qed.

Lemma SFltb_trans (x y z : float64) :
  SFltb x y = true → SFltb y z = true → SFltb x z = true.
Proof.
  unfold SFltb.
  destruct x as [sx|sx| |sx mx ex], y as [sy|sy| |sy my ey],
           z as [sz|sz| |sz mz ez]; cbn;
    try done; try (by destruct sx, sy); try (by destruct sy, sz);
    try (by destruct sx, sz); try (by destruct sx, sy, sz).
  change (Pos.compare_cont Eq) with Pos.compare.
  destruct sx, sy, sz; try done;
    destruct (Z.compare_spec ex ey), (Z.compare_spec ey ez),
             (Z.compare_spec ex ez); try done; try lia;
    destruct (Pos.compare_spec mx my), (Pos.compare_spec my mz),
             (Pos.compare_spec mx mz); try done; try lia.
Qed.

Lemma strictlyAscending_lookup (bounds : list float64) (i j : nat)
    (x y : float64) :
  strictlyAscending bounds = true →
  bounds !! i = Some x → bounds !! j = Some y → (i < j)%nat →
  SFltb x y = true.
Proof.
  revert i j x. induction bounds as [|b bounds IH]; intros i j x Hasc Hi Hj Hij.
  { done. }
  destruct j as [|j]; [lia|].
  cbn [strictlyAscending] in Hasc.
  destruct bounds as [|b' bounds']; [done|].
  apply andb_true_iff in Hasc as [Hb Hasc].
  destruct i as [|i].
  - cbn in Hi. simplify_eq. destruct j as [|j].
    + cbn in Hj. by simplify_eq.
    + apply (SFltb_trans _ b'); [done|].
      apply (IH 0%nat (S j)); [done..|lia].
  - apply (IH i j); [done..|lia].
Qed.

(** ** The histogram buckets *)

Lemma sumZ_app (l1 l2 : list Z) : sumZ (l1 ++ l2) = sumZ l1 + sumZ l2.
Proof. unfold sumZ. induction l1 as [|x l1 IH]; cbn; lia. Qed.

Lemma assign_fresh (k : float64) (v : Z) (m : Buckets.t) :
  Forall (λ kv, SFeqb kv.1 k = false) m →
  Buckets.assign k v m = m ++ [(k, v)].
Proof.
  induction 1 as [|[k' v'] m Hk' _ IH]; [done|].
  cbn in *. by rewrite Hk', IH.
Qed.

Lemma get_fresh (k : float64) (v : Z) (m1 m2 : Buckets.t) :
  Forall (λ kv, SFeqb kv.1 k = false) m1 →
  SFeqb k k = true →
  Buckets.get k (m1 ++ (k, v) :: m2) = Some v.
Proof.
  intros Hm1 Hk. induction Hm1 as [|[k' v'] m Hk' _ IH]; cbn in *.
  - by rewrite Hk.
  - by rewrite Hk'.
Qed.

Lemma accumulateBuckets_total (bounds : list float64) (i : nat)
    (counts : list Z) (acc : Z) (buckets : Buckets.t) :
  (i + length bounds ≤ length counts)%nat →
  is_Some (accumulateBuckets bounds i counts acc buckets).
Proof.
  revert i acc buckets.
  induction bounds as [|b bounds IH]; intros i acc buckets Hlen; [by eexists|].
  cbn in Hlen. cbn [accumulateBuckets].
  destruct (lookup_lt_is_Some_2 counts i) as [c Hc]; [lia|].
  rewrite Hc. cbn. apply IH. lia.
Qed.

Lemma accumulateBuckets_spec (rest done : list float64) (i : nat)
    (counts : list Z) (acc : Z) (buckets : Buckets.t) :
  strictlyAscending (done ++ rest) = true →
  length done = i →
  (i + length rest ≤ length counts)%nat →
  acc = sumZ (take i counts) mod 2 ^ 64 →
  buckets.*1 = done →
  accumulateBuckets rest i counts acc buckets
  = Some (buckets
          ++ imap (λ j b, (b, sumZ (take (S (i + j)) counts) mod 2 ^ 64))
                  rest).
Proof.
  revert done i acc buckets.
  induction rest as [|b rest IH]; intros done i acc buckets Hasc Hi Hlen Hacc Hb.
  { cbn. by rewrite (right_id_L [] (++)). }
  cbn in Hlen. cbn [accumulateBuckets].
  destruct (lookup_lt_is_Some_2 counts i) as [c Hc]; [lia|].
  rewrite Hc. cbn [mbind option_bind].
  assert (uint64_add acc c = sumZ (take (S i) counts) mod 2 ^ 64) as Hadd.
  { unfold uint64_add. rewrite (take_S_r _ _ c), sumZ_app by done.
    subst acc. rewrite Zplus_mod_idemp_l. f_equal. unfold sumZ. cbn. lia. }
  rewrite assign_fresh.
  2:{ apply Forall_forall. intros [k v] Hin. cbn.
      apply SFltb_not_eqb.
      assert (k ∈ done) as [j Hj]%list_elem_of_lookup.
      { rewrite <- Hb. apply list_elem_of_fmap. by exists (k, v). }
      apply (strictlyAscending_lookup (done ++ b :: rest) j i); [done|..].
      - by apply lookup_app_l_Some.
      - rewrite lookup_app_r by lia. by rewrite Hi, Nat.sub_diag.
      - apply lookup_lt_Some in Hj. lia. }
  rewrite (IH (done ++ [b]) (S i)).
  - rewrite <- (assoc_L (++)). cbn [app]. rewrite imap_cons, Nat.add_0_r, Hadd.
    do 3 f_equal. apply imap_ext. intros j x _. cbn.
    by rewrite Nat.add_succ_r.
  - by rewrite <- (assoc_L (++)).
  - rewrite length_app. cbn. lia.
  - lia.
  - done.
  - rewrite fmap_app. cbn. by rewrite Hb.
Qed.

Lemma accumulateBuckets_take (n : nat) (bounds : list float64) (i : nat)
    (counts : list Z) (acc : Z) (buckets : Buckets.t) :
  (i + length bounds ≤ n)%nat →
  accumulateBuckets bounds i (take n counts) acc buckets
  = accumulateBuckets bounds i counts acc buckets.
Proof.
  revert i acc buckets.
  induction bounds as [|b bounds IH]; intros i acc buckets Hn; [done|].
  cbn in Hn. cbn [accumulateBuckets].
  rewrite lookup_take_lt by lia.
  destruct (counts !! i) as [c|]; [|done]. cbn. apply IH. lia.
Qed.

Lemma sumZ_nonneg (l : list Z) : Forall (λ c, 0 ≤ c) l → 0 ≤ sumZ l.
Proof. unfold sumZ. induction 1; cbn; lia. Qed.

Lemma sumZ_take_le (l : list Z) (n : nat) :
  Forall (λ c, 0 ≤ c) l → 0 ≤ sumZ (take n l) ≤ sumZ l.
Proof.
  intros Hl. rewrite <- (take_drop n l) at 3. rewrite sumZ_app.
  pose proof (sumZ_nonneg (take n l) (Forall_take _ n _ Hl)).
  pose proof (sumZ_nonneg (drop n l) (Forall_drop _ n _ Hl)). lia.
Qed.

(** C1. For a histogram data point whose bounds are strictly ascending,
    n in number, and whose bucket counts are n+1 in number, the inner loop
    of [addHistogramMetric] builds the map whose keys are the bounds and
    which maps [Bounds[i]] to the sum of [BucketCounts[0..i]], taken in
    [uint64] as the running total is; that is the sum itself whenever the
    total count fits in a [uint64]. The last entry of [BucketCounts], the
    overflow bucket, has no part in the map. In particular bounds
    [1, 5, 10] with bucket counts [2, 3, 4, 1] give {1:2, 5:5, 10:9}. *)
Theorem cumulativeBuckets_prefix_sums :
  (∀ (Bounds : list float64) (BucketCounts : list Z),
     length BucketCounts = S (length Bounds) →
     strictlyAscending Bounds = true →
     ∃ buckets,
       cumulativeBuckets Bounds BucketCounts = Some buckets
       ∧ buckets.*1 = Bounds
       ∧ (∀ i bound, Bounds !! i = Some bound → bound ≠ S754_nan →
            Buckets.get bound buckets
            = Some (sumZ (take (S i) BucketCounts) mod 2 ^ 64))
       ∧ (Forall (λ c, 0 ≤ c) BucketCounts → sumZ BucketCounts < 2 ^ 64 →
          ∀ i bound, Bounds !! i = Some bound → bound ≠ S754_nan →
            Buckets.get bound buckets
            = Some (sumZ (take (S i) BucketCounts)))
       ∧ (∀ overflow,
            cumulativeBuckets
              Bounds (take (length Bounds) BucketCounts ++ [overflow])
            = Some buckets))
  ∧ cumulativeBuckets (float64_of_Z <$> [1; 5; 10]) [2; 3; 4; 1]
    = Some [(float64_of_Z 1, 2); (float64_of_Z 5, 5); (float64_of_Z 10, 9)].
Proof.
  split; [|done].
  intros Bounds BucketCounts Hlen Hasc.
  assert (cumulativeBuckets Bounds BucketCounts
          = Some (imap (λ j b, (b, sumZ (take (S (0 + j)) BucketCounts)
                                   mod 2 ^ 64)) Bounds)) as Hrun.
  { unfold cumulativeBuckets.
    by rewrite (accumulateBuckets_spec Bounds [] 0 BucketCounts 0 []);
      [|done|done|lia|done|done]. }
  rewrite Hrun.
  assert (∀ i bound, Bounds !! i = Some bound → bound ≠ S754_nan →
            Buckets.get bound
              (imap (λ j b, (b, sumZ (take (S (0 + j)) BucketCounts)
                                mod 2 ^ 64)) Bounds)
            = Some (sumZ (take (S i) BucketCounts) mod 2 ^ 64)) as Hget.
  { intros i bound Hi Hnan.
    pose proof (take_drop_middle Bounds i bound Hi) as Hsplit.
    pose proof (lookup_lt_Some _ _ _ Hi) as Hlt.
    rewrite <- Hsplit at 1. rewrite imap_app, imap_cons.
    rewrite length_take, Nat.min_l, Nat.add_0_r by lia.
    apply get_fresh; [|by apply SFeqb_refl].
    apply Forall_forall. intros [k v] [j [y [? Hj]]]%elem_of_lookup_imap.
    simplify_eq. cbn. apply SFltb_not_eqb.
    pose proof (lookup_lt_Some _ _ _ Hj) as Hjlt.
    rewrite length_take in Hjlt.
    apply (strictlyAscending_lookup Bounds j i); [done| |done|lia].
    rewrite lookup_take_lt in Hj; [done|lia]. }
  eexists. split; [done|]. split; [|split; [|split]].
  - rewrite fmap_imap, (imap_ext _ (λ _, id)) by done.
    by rewrite (imap_const id), list_fmap_id.
  - exact Hget.
  - intros Hpos Hsmall i bound Hi Hnan. rewrite (Hget i bound Hi Hnan).
    f_equal. apply Z.mod_small.
    pose proof (sumZ_take_le BucketCounts (S i) Hpos). lia.
  - intros overflow. unfold cumulativeBuckets.
    rewrite <- (accumulateBuckets_take (length Bounds)) by done.
    rewrite take_app_length' by (rewrite length_take; lia).
    by rewrite (accumulateBuckets_take (length Bounds)) by done.
Qed.

(** ** Runs of the effectful code *)

Section Properties.

Context `{Collaborators}.

Lemma bind_run {A B} (x : M A) (f : A → M B) (e : Env) :
  (x ≫= f) e = match x e with
               | Some (a, e') => f a e'
               | None => None
               end.
Proof. done. Qed.

Lemma forEach_app {A} (l1 l2 : list A) (body : A → M unit) (e : Env) :
  forEach (l1 ++ l2) body e =
  match forEach l1 body e with
  | Some (_, e1) => forEach l2 body e1
  | None => None
  end.
Proof.
  revert e. induction l1 as [|x l1 IH]; intros e; [done|].
  cbn [forEach app]. rewrite !bind_run.
  destruct (body x e) as [[[] e1]|]; [apply IH | done].
Qed.

(** *** Collect and the reader's error *)

(** C9, as amended: when the reader returns the not-registered error,
    [Collect] reports it to the fault handler, like any other error, and
    then returns: nothing is sent on the channel and the collector is
    left as it was. *)
Theorem Collect_not_registered (c : collector) (metrics : ResourceMetrics)
    (e : Env) :
  Collect c (metrics, Some ErrReaderNotRegistered) e
  = Some (c, reported ErrReaderNotRegistered e)
  ∧ ch (reported ErrReaderNotRegistered e) = ch e
  ∧ handled (reported ErrReaderNotRegistered e)
    = handled e ++ [ErrReaderNotRegistered].
Proof.
  split; [|done]. unfold Collect. rewrite bind_run. cbn.
  by rewrite bool_decide_eq_true_2.
Qed.

(** *** The translators as filters over the data points *)

Lemma records_app {E} (l1 l2 : list (PromMetric + E)) :
  records (l1 ++ l2) = records l1 ++ records l2.
Proof. apply omap_app. Qed.

Lemma errors_app {E} (l1 l2 : list (PromMetric + E)) :
  errors (l1 ++ l2) = errors l1 ++ errors l2.
Proof. apply omap_app. Qed.

Lemma absorb_app (outs1 outs2 : list (PromMetric + Error)) (e : Env) :
  absorb outs2 (absorb outs1 e) = absorb (outs1 ++ outs2) e.
Proof.
  unfold absorb; cbn.
  by rewrite records_app, errors_app, length_app, !(assoc_L (++)),
             Nat.add_assoc.
Qed.

Lemma outcomesFrom_app {A B} (outcome : nat → A → B) (k : nat)
    (l1 l2 : list A) :
  outcomesFrom outcome k (l1 ++ l2)
  = outcomesFrom outcome k l1
    ++ outcomesFrom outcome (k + length l1) l2.
Proof.
  unfold outcomesFrom. rewrite imap_app. f_equal.
  apply imap_ext. intros i x _. cbn. f_equal. lia.
Qed.

Lemma outcomesFrom_cons {A B} (outcome : nat → A → B) (k : nat)
    (x : A) (l : list A) :
  outcomesFrom outcome k (x :: l)
  = outcome k x :: outcomesFrom outcome (S k) l.
Proof.
  unfold outcomesFrom. rewrite imap_cons, Nat.add_0_r. f_equal.
  apply imap_ext. intros i y _. cbn. f_equal. lia.
Qed.

(** A loop whose body turns the data point, under the next map
    iteration, into an outcome, sends a record and reports an error,
    sends exactly the records and reports exactly the errors of the
    outcomes; a data point without outcome makes it panic. *)
Lemma forEach_outcomes {A}
    (outcome : nat → A → option (PromMetric + Error))
    (body : A → M unit) (dps : list A) :
  (∀ dp e, body dp e =
     match outcome (ranges e) dp with
     | Some o => Some (tt, absorb [o] e)
     | None => None
     end) →
  ∀ e outs,
    outcomesFrom outcome (ranges e) dps = Some <$> outs →
    forEach dps body e = Some (tt, absorb outs e).
Proof.
  intros Hbody. induction dps as [|dp dps IH]; intros e outs Houts.
  - destruct outs; [|done]. cbn. unfold absorb. cbn.
    rewrite !(right_id_L [] (++)), Nat.add_0_r. by destruct e.
  - rewrite outcomesFrom_cons in Houts.
    destruct outs as [|o outs]; [done|].
    rewrite fmap_cons in Houts. injection Houts as Ho Houts.
    cbn [forEach]. rewrite bind_run, Hbody, Ho.
    rewrite (IH _ outs); [|by unfold absorb; cbn; rewrite Nat.add_1_r].
    by rewrite absorb_app.
Qed.

Lemma forEach_panics {A}
    (outcome : nat → A → option (PromMetric + Error))
    (body : A → M unit) (dps : list A) :
  (∀ dp e, body dp e =
     match outcome (ranges e) dp with
     | Some o => Some (tt, absorb [o] e)
     | None => None
     end) →
  ∀ e, None ∈ outcomesFrom outcome (ranges e) dps →
       forEach dps body e = None.
Proof.
  intros Hbody. induction dps as [|dp dps IH]; intros e Hin.
  - by apply elem_of_nil in Hin.
  - rewrite outcomesFrom_cons in Hin. cbn [forEach].
    rewrite bind_run, Hbody.
    destruct (outcome (ranges e) dp) as [o|] eqn:Ho; [|done].
    apply IH. apply elem_of_cons in Hin as [?|Hin]; [done|].
    unfold absorb. cbn. by rewrite Nat.add_1_r.
Qed.

Lemma scalarOutcome_is_Some {N} `{!Number N} (name description : string)
    (valueType : ValueType) (k : nat) (dp : DataPoint N) :
  ∃ o, scalarOutcome name description valueType k dp = Some o
       ∧ (∀ r, o = inl r →
            ∃ keys v lv,
              r = constMetric (NewDesc name description keys)
                              valueType v lv).
Proof.
  unfold scalarOutcome.
  destruct (getAttrs _ _) as [keys values]. eexists. split; [done|].
  intros r. unfold NewConstMetric.
  destruct (constMetricError _ _ _ _); [done|].
  intros [= <-]. eauto.
Qed.

Lemma scalarOutcomes_are_Some {N} `{!Number N} (name description : string)
    (valueType : ValueType) (k : nat) (dps : list (DataPoint N)) :
  ∃ outs,
    outcomesFrom (scalarOutcome name description valueType) k dps
    = Some <$> outs
    ∧ ∀ r, r ∈ records outs →
        ∃ keys v lv,
          r = constMetric (NewDesc name description keys) valueType v lv.
Proof.
  revert k. induction dps as [|dp dps IH]; intros k.
  { exists []. split; [done|]. intros r Hr. by apply elem_of_nil in Hr. }
  destruct (IH (S k)) as (outs & Houts & Hrecs).
  destruct (scalarOutcome_is_Some name description valueType k dp)
    as (o & Ho & Hrec).
  exists (o :: outs). split.
  - by rewrite outcomesFrom_cons, Ho, Houts.
  - intros r. unfold records. cbn [omap list_omap].
    destruct o as [m|err]; [|by apply Hrecs].
    intros [->|Hr]%elem_of_cons; [by apply Hrec | by apply Hrecs].
Qed.

(** The loop of [addSumMetric] and [addGaugeMetric]. *)
Lemma scalarLoop_run {N} `{!Number N} (name description : string)
    (valueType : ValueType) (dps : list (DataPoint N)) (e : Env)
    (outs : list (PromMetric + Error)) :
  outcomesFrom (scalarOutcome name description valueType) (ranges e) dps
  = Some <$> outs →
  forEach dps (λ dp,
    order ← nextRange;
    let '(keys, values) := getAttrs order (dpAttributes dp) in
    let desc := NewDesc name description keys in
    match NewConstMetric desc valueType (toFloat64 (dpValue dp)) values with
    | inr err => Handle err
    | inl m => send m
    end) e
  = Some (tt, absorb outs e).
Proof.
  apply forEach_outcomes. clear. intros dp e.
  rewrite bind_run. unfold nextRange, scalarOutcome, absorb.
  destruct (getAttrs _ _) as [keys values].
  destruct (NewConstMetric _ _ _ _) as [m|err]; cbn;
    by rewrite ?(right_id_L [] (++)), Nat.add_1_r.
Qed.

(** The name and the value kind [addSumMetric] gives its records. *)
Lemma addSumMetric_run {N} `{!Number N} (sum : Sum N) (m : Metrics)
    (name : string) (e : Env) (outs : list (PromMetric + Error)) :
  outcomesFrom
    (scalarOutcome
       (if IsMonotonic sum then name +:+ counterSuffix else name)
       (Description m)
       (if IsMonotonic sum then CounterValue else GaugeValue))
    (ranges e) (sumDataPoints sum)
  = Some <$> outs →
  addSumMetric sum m name e = Some (tt, absorb outs e).
Proof.
  intros Houts. unfold addSumMetric.
  destruct (IsMonotonic sum); by apply scalarLoop_run.
Qed.

Lemma addGaugeMetric_run {N} `{!Number N} (gauge : Gauge N) (m : Metrics)
    (name : string) (e : Env) (outs : list (PromMetric + Error)) :
  outcomesFrom (scalarOutcome name (Description m) GaugeValue)
               (ranges e) (gaugeDataPoints gauge)
  = Some <$> outs →
  addGaugeMetric gauge m name e = Some (tt, absorb outs e).
Proof. apply scalarLoop_run. Qed.

Lemma histogramBody_run (name description : string)
    (dp : HistogramDataPoint) (e : Env) :
  (order ← nextRange;
   let '(keys, values) := getAttrs order (hAttributes dp) in
   let desc := NewDesc name description keys in
   buckets ← orPanic (cumulativeBuckets (hBounds dp) (hBucketCounts dp));
   match NewConstHistogram desc (hCount dp) (hSum dp) buckets values with
   | inr err => Handle err
   | inl m => send m
   end) e
  = match histogramOutcome name description (ranges e) dp with
    | Some o => Some (tt, absorb [o] e)
    | None => None
    end.
Proof.
  rewrite bind_run. unfold nextRange, histogramOutcome, absorb.
  destruct (getAttrs _ _) as [keys values]. rewrite bind_run.
  unfold orPanic.
  destruct (cumulativeBuckets _ _) as [buckets|]; [|done].
  cbn [mbind option_bind].
  destruct (NewConstHistogram _ _ _ _ _) as [r|err]; cbn;
    by rewrite ?(right_id_L [] (++)), Nat.add_1_r.
Qed.

(** The record of a histogram data point carries the bucket map of
    [cumulativeBuckets], next to the count and the sum of the data point. *)
Lemma histogramOutcome_record (name description : string) (k : nat)
    (dp : HistogramDataPoint) (r : PromMetric) :
  histogramOutcome name description k dp = Some (inl r) →
  ∃ keys values buckets,
    getAttrs (runtimeOrder k) (hAttributes dp) = (keys, values)
    ∧ cumulativeBuckets (hBounds dp) (hBucketCounts dp) = Some buckets
    ∧ r = constHistogram (NewDesc name description keys)
                         (hCount dp) (hSum dp) buckets values.
Proof.
  unfold histogramOutcome. destruct (getAttrs _ _) as [keys values].
  destruct (cumulativeBuckets _ _) as [buckets|]; [|done].
  cbn [mbind option_bind]. unfold NewConstHistogram.
  destruct (constHistogramError _ _ _ _ _); [done|].
  intros [= <-]. by exists keys, values, buckets.
Qed.

Lemma addHistogramMetric_run (histogram : Histogram) (m : Metrics)
    (name : string) (e : Env) (outs : list (PromMetric + Error)) :
  outcomesFrom (histogramOutcome name (Description m)) (ranges e)
               (histDataPoints histogram)
  = Some <$> outs →
  addHistogramMetric histogram m name e = Some (tt, absorb outs e).
Proof.
  apply forEach_outcomes. intros dp e'. apply histogramBody_run.
Qed.

Lemma histogramOutcomes_are_Some (name description : string) (k : nat)
    (dps : list HistogramDataPoint) :
  Forall (λ dp, length (hBucketCounts dp) = S (length (hBounds dp))) dps →
  ∃ outs,
    outcomesFrom (histogramOutcome name description) k dps = Some <$> outs.
Proof.
  intros Hwf. revert k.
  induction Hwf as [|dp dps Hdp _ IH]; intros k; [by exists []|].
  destruct (IH (S k)) as [outs Houts].
  destruct (accumulateBuckets_total (hBounds dp) 0 (hBucketCounts dp) 0 [])
    as [buckets Hb]; [lia|].
  rewrite outcomesFrom_cons, Houts. unfold histogramOutcome at 1.
  destruct (getAttrs _ _) as [keys values].
  unfold cumulativeBuckets. rewrite Hb. cbn. by eexists (_ :: _).
Qed.

(** *** Sum metrics *)

(** C2. [addSumMetric] sends only constant metrics, each with the same
    name and value kind: for a monotonic Sum the kind is counter and the
    name is the name it was given with "_total" appended once; otherwise
    the kind is gauge and the name is the one it was given. [Collect]
    gives it the name that [getName] computes for the metric. *)
Theorem addSumMetric_kind_and_name :
  (∀ N (numeric : Number N) (sum : Sum N) (m : Metrics) (name : string)
     (e : Env),
     ∃ e' new,
       addSumMetric sum m name e = Some (tt, e')
       ∧ ch e' = ch e ++ new
       ∧ ∀ r, r ∈ new →
           ∃ keys v lv,
             r = constMetric
                   (NewDesc (if IsMonotonic sum then name +:+ "_total"
                             else name)
                            (Description m) keys)
                   (if IsMonotonic sum then CounterValue else GaugeValue)
                   v lv)
  ∧ (∀ c m name sum,
       getName c m = Some name → Data m = DataSumInt64 sum →
       translateMetric c m = addSumMetric sum m name)
  ∧ (∀ c m name sum,
       getName c m = Some name → Data m = DataSumFloat64 sum →
       translateMetric c m = addSumMetric sum m name).
Proof.
  split; [|split].
  - intros N numeric sum m name e.
    destruct (scalarOutcomes_are_Some
                (if IsMonotonic sum then name +:+ counterSuffix else name)
                (Description m)
                (if IsMonotonic sum then CounterValue else GaugeValue)
                (ranges e) (sumDataPoints sum)) as (outs & Houts & Hrecs).
    exists (absorb outs e), (records outs).
    split; [by apply addSumMetric_run|]. split; [done|]. exact Hrecs.
  - intros c m name sum Hname Hdata. unfold translateMetric.
    by rewrite Hdata, Hname.
  - intros c m name sum Hname Hdata. unfold translateMetric.
    by rewrite Hdata, Hname.
Qed.

(** *** A rejected data point *)

(** C8. When the target's constructor rejects the record of one data
    point of a Sum, of a Histogram or of a Gauge, [addSumMetric],
    [addHistogramMetric] and [addGaugeMetric] send nothing for that data
    point, report its error to the fault handler and go on: the records
    sent are those of the data points before it followed by those of the
    data points after it, each as it comes out on its own, and the errors
    reported are theirs with the error of the rejected data point in
    between. *)
Theorem rejected_data_point_is_skipped :
  (∀ N (numeric : Number N) (sum : Sum N) (m : Metrics) (name : string)
     (before after : list (DataPoint N)) (dp : DataPoint N) (err : Error)
     (e : Env),
     let outcome :=
       scalarOutcome
         (if IsMonotonic sum then name +:+ counterSuffix else name)
         (Description m)
         (if IsMonotonic sum then CounterValue else GaugeValue) in
     sumDataPoints sum = before ++ dp :: after →
     outcome (ranges e + length before)%nat dp = Some (inr err) →
     ∃ e' outsBefore outsAfter,
       addSumMetric sum m name e = Some (tt, e')
       ∧ outcomesFrom outcome (ranges e) before = Some <$> outsBefore
       ∧ outcomesFrom outcome (ranges e + length before + 1) after
         = Some <$> outsAfter
       ∧ ch e' = ch e ++ records outsBefore ++ records outsAfter
       ∧ handled e'
         = handled e ++ errors outsBefore ++ [err] ++ errors outsAfter)
  ∧ (∀ (histogram : Histogram) (m : Metrics) (name : string)
       (before after : list HistogramDataPoint) (dp : HistogramDataPoint)
       (err : Error) (e : Env),
       let outcome := histogramOutcome name (Description m) in
       histDataPoints histogram = before ++ dp :: after →
       Forall (λ dp, length (hBucketCounts dp) = S (length (hBounds dp)))
              (histDataPoints histogram) →
       outcome (ranges e + length before)%nat dp = Some (inr err) →
       ∃ e' outsBefore outsAfter,
         addHistogramMetric histogram m name e = Some (tt, e')
         ∧ outcomesFrom outcome (ranges e) before = Some <$> outsBefore
         ∧ outcomesFrom outcome (ranges e + length before + 1) after
           = Some <$> outsAfter
         ∧ ch e' = ch e ++ records outsBefore ++ records outsAfter
         ∧ handled e'
           = handled e ++ errors outsBefore ++ [err] ++ errors outsAfter)
  ∧ (∀ N (numeric : Number N) (gauge : Gauge N) (m : Metrics)
       (name : string) (before after : list (DataPoint N))
       (dp : DataPoint N) (err : Error) (e : Env),
       let outcome := scalarOutcome name (Description m) GaugeValue in
       gaugeDataPoints gauge = before ++ dp :: after →
       outcome (ranges e + length before)%nat dp = Some (inr err) →
       ∃ e' outsBefore outsAfter,
         addGaugeMetric gauge m name e = Some (tt, e')
         ∧ outcomesFrom outcome (ranges e) before = Some <$> outsBefore
         ∧ outcomesFrom outcome (ranges e + length before + 1) after
           = Some <$> outsAfter
         ∧ ch e' = ch e ++ records outsBefore ++ records outsAfter
         ∧ handled e'
           = handled e ++ errors outsBefore ++ [err] ++ errors outsAfter).
Proof.
  split; [|split].
  - intros N numeric sum m name before after dp err e outcome Hdps Hdp.
    subst outcome.
    destruct (scalarOutcomes_are_Some
                (if IsMonotonic sum then name +:+ counterSuffix else name)
                (Description m)
                (if IsMonotonic sum then CounterValue else GaugeValue)
                (ranges e) before) as (outsB & HoutsB & _).
    destruct (scalarOutcomes_are_Some
                (if IsMonotonic sum then name +:+ counterSuffix else name)
                (Description m)
                (if IsMonotonic sum then CounterValue else GaugeValue)
                (ranges e + length before + 1) after)
      as (outsA & HoutsA & _).
    exists (absorb (outsB ++ inr err :: outsA) e), outsB, outsA.
    split; [|split; [done|split; [done|]]].
    + apply addSumMetric_run. rewrite Hdps, outcomesFrom_app.
      rewrite outcomesFrom_cons.
      rewrite HoutsB, Hdp, <- Nat.add_1_r, HoutsA.
      by rewrite fmap_app, fmap_cons.
    + unfold absorb. cbn. by rewrite records_app, errors_app.
  - intros histogram m name before after dp err e outcome Hdps Hwf Hdp.
    subst outcome.
    rewrite Hdps in Hwf.
    apply Forall_app in Hwf as [HwfB Hwf].
    apply Forall_cons in Hwf as [_ HwfA].
    destruct (histogramOutcomes_are_Some name (Description m) (ranges e)
                before HwfB) as [outsB HoutsB].
    destruct (histogramOutcomes_are_Some name (Description m)
                (ranges e + length before + 1) after HwfA)
      as [outsA HoutsA].
    exists (absorb (outsB ++ inr err :: outsA) e), outsB, outsA.
    split; [|split; [done|split; [done|]]].
    + apply addHistogramMetric_run. rewrite Hdps, outcomesFrom_app.
      rewrite outcomesFrom_cons.
      rewrite HoutsB, Hdp, <- Nat.add_1_r, HoutsA.
      by rewrite fmap_app, fmap_cons.
    + unfold absorb. cbn. by rewrite records_app, errors_app.
  - intros N numeric gauge m name before after dp err e outcome Hdps Hdp.
    subst outcome.
    destruct (scalarOutcomes_are_Some name (Description m) GaugeValue
                (ranges e) before) as (outsB & HoutsB & _).
    destruct (scalarOutcomes_are_Some name (Description m) GaugeValue
                (ranges e + length before + 1) after)
      as (outsA & HoutsA & _).
    exists (absorb (outsB ++ inr err :: outsA) e), outsB, outsA.
    split; [|split; [done|split; [done|]]].
    + apply addGaugeMetric_run. rewrite Hdps, outcomesFrom_app.
      rewrite outcomesFrom_cons.
      rewrite HoutsB, Hdp, <- Nat.add_1_r, HoutsA.
      by rewrite fmap_app, fmap_cons.
    + unfold absorb. cbn. by rewrite records_app, errors_app.
Qed.

(** *** What a scrape has sent and reported only grows *)



Lemma grows_send (m : PromMetric) : grows (send m).
Proof. intros e a e' [= <- <-]. cbn. split; [by apply prefix_app_r|done]. Qed.

Lemma grows_Handle (err : Error) : grows (Handle err).
Proof. intros e a e' [= <- <-]. cbn. split; [done|by apply prefix_app_r]. Qed.

Lemma grows_nextRange : grows nextRange.
Proof. intros e a e' [= <- <-]. done. Qed.








(** The [sync.Once] of the target info: it has run when
    [createTargetInfo] returns, nothing is sent, and what was reported
    stays reported. *)
Lemma createTargetInfo_run (c c' : collector) (metrics : ResourceMetrics)
    (e e' : Env) :
  createTargetInfo c metrics e = Some (c', e') →
  createTargetInfoOnce c' = true
  ∧ withoutUnits c' = withoutUnits c
  ∧ ch e' = ch e
  ∧ handled e `prefix_of` handled e'.
Proof.
  unfold createTargetInfo.
  destruct (createTargetInfoOnce c) eqn:Hdone.
  { by intros [= <- <-]. }
  rewrite bind_run. unfold createInfoMetric. rewrite bind_run.
  unfold nextRange. destruct (getAttrs _ _) as [keys values].
  cbn [mret M_ret]. destruct (NewConstMetric _ _ _ _) as [r|err].
  - by intros [= <- <-].
  - rewrite bind_run. cbn. intros [= <- <-]. cbn.
    split_and!; [done..|by apply prefix_app_r].
Qed.



(** *** The metric name *)

Lemma unitSuffix_cases (u : Unit) :
  NoDup [Dimensionless; Bytes; Milliseconds] →
  (u = Dimensionless → unitSuffix u = Some "_ratio")
  ∧ (u = Bytes → unitSuffix u = Some "_bytes")
  ∧ (u = Milliseconds → unitSuffix u = Some "_milliseconds")
  ∧ (u ∉ [Dimensionless; Bytes; Milliseconds] → unitSuffix u = None).
Proof.
  intros Hunits. unfold unitSuffix, unitSuffixes.
  apply NoDup_cons in Hunits as [Hd Hunits].
  apply NoDup_cons in Hunits as [Hb _].
  rewrite !not_elem_of_cons in Hd. rewrite not_elem_of_cons in Hb.
  destruct Hd as (Hdb & Hdm & _), Hb as [Hbm _].
  cbn [find fst]. split_and!.
  - intros ->. by rewrite bool_decide_eq_true_2.
  - intros ->. rewrite bool_decide_eq_false_2 by done.
    by rewrite bool_decide_eq_true_2.
  - intros ->. rewrite !bool_decide_eq_false_2 by done.
    by rewrite bool_decide_eq_true_2.
  - rewrite !not_elem_of_cons. intros (? & ? & ? & _).
    by rewrite !bool_decide_eq_false_2.
Qed.

(** C6. The name [getName] computes is the sanitized source name,
    followed, unless the collector is configured without units, by the
    suffix of the metric's unit: "_ratio" for dimensionless, "_bytes"
    for bytes, "_milliseconds" for milliseconds and nothing for any
    other unit. Without units nothing is ever appended. *)
Theorem getName_unit_suffix (c : collector) (m : Metrics) :
  NoDup [Dimensionless; Bytes; Milliseconds] →
  (sanitizeName (Name m) = None → getName c m = None)
  ∧ ∀ name, sanitizeName (Name m) = Some name →
      (withoutUnits c = true → getName c m = Some name)
      ∧ (withoutUnits c = false →
         (MetricUnit m = Dimensionless →
          getName c m = Some (name +:+ "_ratio"))
         ∧ (MetricUnit m = Bytes →
            getName c m = Some (name +:+ "_bytes"))
         ∧ (MetricUnit m = Milliseconds →
            getName c m = Some (name +:+ "_milliseconds"))
         ∧ (MetricUnit m ∉ [Dimensionless; Bytes; Milliseconds] →
            getName c m = Some name)).
Proof.
  intros Hunits. unfold getName. split; [by intros ->|].
  intros name ->. cbn [mbind option_bind].
  split; [by intros ->|]. intros ->.
  destruct (unitSuffix_cases (MetricUnit m) Hunits) as (Hd & Hb & Hm & Ho).
  split_and!; intros Hu.
  - by rewrite Hd.
  - by rewrite Hb.
  - by rewrite Hm.
  - by rewrite Ho.
Qed.

(** *** The attribute encoder *)

Lemma groupAttrs_step_lookup (attrs : AttributeSet)
    (keysMap : gmap string (list string)) (k : string) :
  foldl (λ (keysMap : gmap string (list string)) kv,
           let key := GoString.Map sanitizeRune (Key kv) in
           match keysMap !! key with
           | None => <[key := [Emit (Value kv)]]> keysMap
           | Some vals => <[key := vals ++ [Emit (Value kv)]]> keysMap
           end) keysMap attrs !! k
  = match keysMap !! k, valuesUnder k attrs with
    | None, [] => None
    | None, vals => Some vals
    | Some vals0, vals => Some (vals0 ++ vals)
    end.
Proof.
  revert keysMap. induction attrs as [|kv attrs IH]; intros keysMap.
  { cbn. destruct (keysMap !! k); [|done]. by rewrite (right_id_L [] (++)). }
  cbn [foldl]. rewrite IH. clear IH. unfold valuesUnder.
  fold (sanitizedKey kv).
  destruct (decide (sanitizedKey kv = k)) as [<-|Hne].
  - rewrite filter_cons_True by done.
    destruct (keysMap !! sanitizedKey kv) as [vals0|] eqn:Hk;
      rewrite lookup_insert_eq; cbn.
    + by rewrite <- (assoc_L (++)).
    + done.
  - rewrite filter_cons_False by done.
    by destruct (keysMap !! sanitizedKey kv) as [vals0|] eqn:Hk;
      rewrite lookup_insert_ne by done.
Qed.

(** The map of the first loop holds, under every sanitized key, the
    values of all the attributes with that key, and nothing else. *)
Lemma groupAttrs_lookup (attrs : AttributeSet) (k : string) :
  groupAttrs attrs !! k
  = match valuesUnder k attrs with
    | [] => None
    | vals => Some vals
    end.
Proof.
  unfold groupAttrs. rewrite groupAttrs_step_lookup.
  by rewrite lookup_empty.
Qed.

Lemma valuesUnder_nil (attrs : AttributeSet) (k : string) :
  valuesUnder k attrs = [] ↔ ¬ ∃ kv, kv ∈ attrs ∧ sanitizedKey kv = k.
Proof.
  unfold valuesUnder. split.
  - intros Hnil%fmap_nil_inv (kv & Hin & Hk).
    assert (kv ∈ filter (λ kv, sanitizedKey kv = k) attrs) as Hf
      by by apply list_elem_of_filter.
    rewrite Hnil in Hf. by apply elem_of_nil in Hf.
  - intros Hno. rewrite (elem_of_nil_inv (filter _ attrs)); [done|].
    intros kv [Hk Hin]%list_elem_of_filter. apply Hno. eauto.
Qed.

Lemma getAttrs_loop (entries : list (string * list string))
    (keys values : list string) :
  foldl (λ '(keys, values) '(key, vals),
           let vals := sortSlice (λ i j, Nat.ltb i j) vals in
           (keys ++ [key], values ++ [Join vals ";"]))
        (keys, values) entries
  = (keys ++ entries.*1,
     values
     ++ ((λ entry, Join (sortSlice (λ i j, Nat.ltb i j) entry.2) ";")
           <$> entries)).
Proof.
  revert keys values.
  induction entries as [|[key vals] entries IH]; intros keys values.
  { cbn. by rewrite !(right_id_L [] (++)). }
  cbn [foldl]. rewrite IH. cbn. by rewrite <- !(assoc_L (++)).
Qed.

(** The second loop of [getAttrs], as two maps over the entries visited. *)
Lemma getAttrs_entries
    (order : gmap string (list string) → list (string * list string))
    (attrs : AttributeSet) :
  getAttrs order attrs
  = ((order (groupAttrs attrs)).*1,
     (λ entry, Join (sortSlice (λ i j, Nat.ltb i j) entry.2) ";")
       <$> order (groupAttrs attrs)).
Proof. unfold getAttrs. by rewrite getAttrs_loop. Qed.

Lemma zip_fst_fmap {A B C} (f : A * B → C) (l : list (A * B)) :
  zip (l.*1) (f <$> l) = (λ x, (x.1, f x)) <$> l.
Proof. induction l as [|x l IH]; cbn; [done|]. by rewrite IH. Qed.

Lemma elem_of_visited
    (order : gmap string (list string) → list (string * list string))
    (attrs : AttributeSet) (k : string) (vals : list string) :
  order (groupAttrs attrs) ≡ₚ map_to_list (groupAttrs attrs) →
  (k, vals) ∈ order (groupAttrs attrs) →
  vals = valuesUnder k attrs ∧ ∃ kv, kv ∈ attrs ∧ sanitizedKey kv = k.
Proof.
  intros Hperm Hin. rewrite Hperm in Hin.
  apply elem_of_map_to_list in Hin. rewrite groupAttrs_lookup in Hin.
  destruct (valuesUnder k attrs) as [|v vs] eqn:Hvals; [done|].
  split; [congruence|].
  unfold valuesUnder in Hvals.
  destruct (filter _ attrs) as [|kv kvs] eqn:Hf; [done|].
  assert (kv ∈ filter (λ kv, sanitizedKey kv = k) attrs) as Hkv
    by (rewrite Hf; apply list_elem_of_here).
  apply list_elem_of_filter in Hkv as [? ?]. eauto.
Qed.

(** C5. Whatever the order in which the runtime visits the map, and
    [sort.Slice] permuting the slice it is given, [getAttrs] returns as
    many label values as label names, no label name twice, and as label
    names exactly the sanitized keys of the attributes; the value of the
    label named [k] is the join with ";" of the values of all the
    attributes whose key sanitizes to [k], none dropped. *)
Theorem getAttrs_merges_collisions
    (order : gmap string (list string) → list (string * list string))
    (attrs : AttributeSet) (keys values : list string) :
  order (groupAttrs attrs) ≡ₚ map_to_list (groupAttrs attrs) →
  (∀ vals, sortSlice (λ i j, Nat.ltb i j) vals ≡ₚ vals) →
  getAttrs order attrs = (keys, values) →
  length keys = length values
  ∧ NoDup keys
  ∧ (∀ k, k ∈ keys ↔ ∃ kv, kv ∈ attrs ∧ sanitizedKey kv = k)
  ∧ (∀ i k, keys !! i = Some k →
       ∃ vals, values !! i = Some (Join vals ";")
               ∧ vals ≡ₚ valuesUnder k attrs).
Proof.
  intros Hperm Hsort. rewrite getAttrs_entries. intros [= <- <-].
  split_and!.
  - by rewrite !length_fmap.
  - rewrite Hperm. apply NoDup_fst_map_to_list.
  - intros k. split.
    + intros [[k' vals] [-> Hin]]%list_elem_of_fmap.
      by apply elem_of_visited in Hin as [_ ?].
    + intros (kv & Hin & Hk).
      assert (groupAttrs attrs !! k = Some (valuesUnder k attrs)) as Hm.
      { rewrite groupAttrs_lookup.
        destruct (valuesUnder k attrs) eqn:Hvals; [|done].
        apply valuesUnder_nil in Hvals. destruct Hvals. eauto. }
      apply elem_of_map_to_list in Hm. rewrite <- Hperm in Hm.
      apply list_elem_of_fmap. by exists (k, valuesUnder k attrs).
  - intros i k. rewrite !list_lookup_fmap.
    destruct (order (groupAttrs attrs) !! i) as [[k' vals]|] eqn:Hi;
      [|done].
    intros [= <-]. cbn. eexists. split; [done|].
    apply list_elem_of_lookup_2 in Hi.
    apply elem_of_visited in Hi as [-> _]; [|done]. apply Hsort.
Qed.

(** C7, as amended: two calls of [getAttrs] on the same attribute set
    return the same labels, each name with the same value, in an order
    that follows the runtime's iteration over the map and may differ
    between the calls; they return identical sequences when the runtime
    visits the map in the same order in both calls. *)
Theorem getAttrs_same_labels
    (order1 order2 : gmap string (list string)
                     → list (string * list string))
    (attrs : AttributeSet) :
  order1 (groupAttrs attrs) ≡ₚ map_to_list (groupAttrs attrs) →
  order2 (groupAttrs attrs) ≡ₚ map_to_list (groupAttrs attrs) →
  labels (getAttrs order1 attrs) ≡ₚ labels (getAttrs order2 attrs)
  ∧ (order1 (groupAttrs attrs) = order2 (groupAttrs attrs) →
     getAttrs order1 attrs = getAttrs order2 attrs).
Proof.
  intros H1 H2. rewrite !getAttrs_entries. unfold labels. cbn [fst snd].
  split; [|by intros ->].
  rewrite !zip_fst_fmap. apply fmap_Permutation. by rewrite H1, H2.
Qed.

End Properties.

(** ** More on the name sanitizer *)

Lemma valid_later (k : Z) (a : ascii) :
  0 < k → valid k (rune a) = nameChar a.
Proof.
  intros Hk. unfold valid, nameChar, nameStart. cbn zeta.
  rewrite (proj2 (Z.ltb_lt _ _) Hk), andb_true_r.
  by destruct (_ && _), (_ && _), (_ =? _), (_ =? _), (_ && _).
Qed.

Lemma matchesGrammar_allValid (s : string) :
  matchesGrammar s = true → allValidFrom 0 s = true.
Proof.
  destruct s as [|a t]; [done|]. cbn [matchesGrammar allValidFrom].
  intros [Ha Ht]%andb_true_iff. rewrite valid_nameStart, Ha. cbn.
  change (0 + 1) with 1. assert (0 < 1) as Hk by lia. revert Hk Ht.
  generalize 1. induction t as [|b t IH]; intros k Hk; [done|].
  cbn [allChars allValidFrom]. intros [Hb Ht]%andb_true_iff.
  rewrite valid_later, Hb by done. cbn. apply IH; [lia|done].
Qed.

(** On a name all of whose characters are valid in their place the first
    loop runs to its end without writing. *)
Lemma sanitizeScan_allValid (s p : string) (b : Builder) :
  allValidFrom (len p) s = true →
  sanitizeScan (p +:+ s) (rangeFrom 0 (len p) s) b = Some (b, p +:+ s).
Proof.
  revert p. induction s as [|a t IH]; intros p; [done|].
  cbn [allValidFrom]. intros [Ha Ht]%andb_true_iff.
  pose proof (valid_ascii _ _ Ha) as Hascii.
  rewrite rangeFrom_ascii by lia. cbn [sanitizeScan]. rewrite Ha.
  replace (p +:+ String a t) with ((p +:+ String a "") +:+ t)
    by (by rewrite app_assoc).
  replace (len p + 1) with (len (p +:+ String a "")) in *
    by (by rewrite len_app).
  by apply IH.
Qed.

(** X10. A name that is empty or matches the target grammar is returned
    as it is, so that sanitizing what [sanitizeName] returned changes
    nothing. *)
Theorem sanitizeName_fixes_valid_names :
  (∀ s, matchesGrammar s = true → sanitizeName s = Some s)
  ∧ (∀ n out, sanitizeName n = Some out → sanitizeName out = Some out).
Proof.
  assert (∀ s, matchesGrammar s = true → sanitizeName s = Some s) as Hfix.
  { intros s Hs%matchesGrammar_allValid. unfold sanitizeName, rangeString.
    pose proof (sanitizeScan_allValid s "" newBuilder Hs) as Hscan.
    change ("" +:+ s) with s in Hscan. change (len "") with 0 in Hscan.
    by rewrite Hscan. }
  split; [exact Hfix|].
  intros n out Hout. by apply Hfix, (sanitizeName_grammar n).
Qed.

Lemma substring_all (t : string) : substring 0 (String.length t) t = t.
Proof. induction t as [|b t IH]; [done|]. cbn. by rewrite IH. Qed.

Lemma substring_suffix (p : string) (a : ascii) (t : string) :
  substring (String.length p + 1)
            (String.length (p +:+ String a t) - (String.length p + 1))
            (p +:+ String a t) = t.
Proof.
  induction p as [|c p IH].
  - change ("" +:+ String a t) with (String a t).
    cbn [String.length Nat.add substring Nat.sub]. rewrite Nat.sub_0_r.
    apply substring_all.
  - rewrite app_cons. cbn [String.length Nat.add substring Nat.sub].
    exact IH.
Qed.

Lemma asciiOnly_cons (a : ascii) (t : string) :
  asciiOnly (String a t) = true → rune a < 0x80 ∧ asciiOnly t = true.
Proof.
  unfold asciiOnly. cbn [allChars]. intros [Ha Ht]%andb_true_iff.
  split; [by apply Z.ltb_lt|done].
Qed.

(** The second loop on ASCII: each character kept or replaced. *)
Lemma restBytes_ascii (k : Z) (t : string) :
  asciiOnly t = true →
  restBytes (rangeFrom 0 k t) = mapChars (keepIf nameChar) t.
Proof.
  revert k. induction t as [|a t IH]; intros k; [done|].
  intros [Ha Ht]%asciiOnly_cons. rewrite rangeFrom_ascii by done.
  rewrite restBytes_cons, IH by done. cbn [mapChars]. f_equal.
  unfold keepIf. rewrite (valid_later 1) by lia.
  destruct (nameChar a); [apply byte_rune|done].
Qed.

Lemma mapChars_allValid (k : Z) (s : string) :
  0 < k → allValidFrom k s = true → mapChars (keepIf nameChar) s = s.
Proof.
  revert k. induction s as [|a t IH]; intros k Hk; [done|].
  cbn [allValidFrom mapChars]. intros [Ha Ht]%andb_true_iff.
  rewrite valid_later in Ha by done. unfold keepIf at 1. rewrite Ha.
  f_equal. apply (IH (k + 1)); [lia|done].
Qed.

(** What [sanitizeName] returns when the first loop has passed the
    non-empty valid part [p] of an ASCII name. *)
Lemma sanitizeName_ascii_from (s p : string) :
  asciiOnly s = true → 0 < len p →
  ('(b, n) ← sanitizeScan (p +:+ s) (rangeFrom 0 (len p) s) newBuilder;
   if Cap b =? 0 then Some n else Some (buf (sanitizeRest n b)))
  = Some (p +:+ mapChars (keepIf nameChar) s).
Proof.
  revert p. induction s as [|a t IH]; intros p Hs Hp; [done|].
  apply asciiOnly_cons in Hs as [Ha Ht].
  rewrite rangeFrom_ascii by done. cbn [sanitizeScan mapChars].
  rewrite valid_later by done. unfold keepIf at 1.
  destruct (nameChar a) eqn:Hchar.
  - replace (p +:+ String a t) with ((p +:+ String a "") +:+ t)
      by (by rewrite app_assoc).
    replace (len p + 1) with (len (p +:+ String a "")) in *
      by (by rewrite len_app).
    rewrite IH; [by rewrite !app_assoc|done|].
    rewrite len_app. change (len (String a "")) with 1. lia.
  - rewrite (proj2 (Z.eqb_neq (len p) 0)) by lia. cbn [andb].
    pose proof (len_app p (String a t)) as Hlen.
    pose proof (len_nonneg (String a t)) as Hnonneg.
    assert (len (String a t) = 1 + len t) as Hcons
      by (unfold len; cbn [String.length]; lia).
    pose proof (len_nonneg t).
    unfold sliceTo, sliceFrom.
    replace (RuneLen (rune a)) with 1
      by (unfold RuneLen; rune_facts;
          repeat match goal with
                 | |- context [if ?b then _ else _] => destruct b eqn:?
                 end; lia).
    rewrite !(proj2 (andb_true_iff _ _)) by (split; apply Z.leb_le; lia).
    cbn [mbind option_bind].
    replace (Z.to_nat (len p)) with (String.length p) by (unfold len; lia).
    replace (Z.to_nat (len p + 1)) with (String.length p + 1)%nat
      by (unfold len; lia).
    rewrite substring_prefix, substring_suffix.
    rewrite (proj2 (Z.eqb_neq _ 0)).
    2:{ pose proof (Cap_WriteByte replacement _
                      (Cap_WriteString p _
                         (Cap_Grow (len (p +:+ String a t)) ltac:(lia)))).
        lia. }
    f_equal. unfold sanitizeRest. rewrite sanitizeRest_buf.
    cbn [WriteByte WriteString buf]. rewrite buf_Grow.
    unfold rangeString. rewrite restBytes_ascii by done.
    change ("" +:+ p) with p. by rewrite app_assoc.
Qed.

(** X11. On an ASCII name [sanitizeName] returns, and returns the name
    with each character outside the grammar replaced by one underscore
    and, if it starts with a digit, one underscore put in front. *)
Theorem sanitizeName_ascii (n : string) :
  asciiOnly n = true → sanitizeName n = Some (sanitizedAscii n).
Proof.
  destruct n as [|a t]; [done|]. intros [Ha Ht]%asciiOnly_cons.
  unfold sanitizedAscii, sanitizeName, rangeString.
  destruct (valid 0 (rune a)) eqn:Hvalid.
  - assert (digitChar a = false) as ->.
    { unfold digitChar. revert Hvalid. unfold valid. runes. lia. }
    unfold keepIf at 1. rewrite <- valid_nameStart, Hvalid.
    pose proof (sanitizeName_ascii_from t (String a "") Ht) as Hrest.
    change (String a "" +:+ t) with (String a t) in Hrest.
    change (len (String a "")) with 1 in Hrest.
    rewrite rangeFrom_ascii by done. cbn [sanitizeScan]. rewrite Hvalid.
    change (0 + 1) with 1. apply Hrest. lia.
  - rewrite rangeFrom_ascii by done. cbn [sanitizeScan]. rewrite Hvalid.
    change (0 =? 0) with true. cbn [andb]. fold (digitChar a).
    assert (len (String a t) = 1 + len t) as Hcons
      by (unfold len; cbn [String.length]; lia).
    pose proof (len_nonneg t).
    destruct (digitChar a) eqn:Hdigit.
    + cbn [mbind option_bind].
      rewrite (proj2 (Z.eqb_neq _ 0)).
      2:{ pose proof (Cap_WriteByte replacement _
                        (Cap_Grow (len (String a t) + 1) ltac:(lia))).
          lia. }
      f_equal. unfold sanitizeRest. rewrite sanitizeRest_buf.
      cbn [WriteByte WriteString buf]. rewrite buf_Grow.
      unfold rangeString. rewrite rangeFrom_ascii by done.
      rewrite restBytes_cons, restBytes_ascii by done.
      assert (valid 1 (rune a) = true) as ->.
      { revert Hdigit. unfold digitChar, valid. runes. lia. }
      by rewrite byte_rune.
    + unfold keepIf at 1. rewrite <- valid_nameStart, Hvalid.
      unfold sliceTo, sliceFrom.
      replace (RuneLen (rune a)) with 1
        by (unfold RuneLen; rune_facts;
            repeat match goal with
                   | |- context [if ?b then _ else _] => destruct b eqn:?
                   end; lia).
      rewrite !(proj2 (andb_true_iff _ _)) by (split; apply Z.leb_le; lia).
      cbn [mbind option_bind].
      pose proof (substring_suffix "" a t) as Hsuffix.
      change ("" +:+ String a t) with (String a t) in Hsuffix.
      change (Z.to_nat (0 + 1)) with (String.length "" + 1)%nat.
      rewrite Hsuffix.
      rewrite (proj2 (Z.eqb_neq _ 0)).
      2:{ pose proof (Cap_WriteByte replacement _
                        (Cap_WriteString (substring 0 (Z.to_nat 0)
                                            (String a t)) _
                           (Cap_Grow (len (String a t)) ltac:(lia)))).
          lia. }
      f_equal. unfold sanitizeRest. rewrite sanitizeRest_buf.
      cbn [WriteByte WriteString buf]. rewrite buf_Grow.
      unfold rangeString. by rewrite restBytes_ascii by done.
Qed.

Lemma sanitizeName_nonempty (n out : string) :
  sanitizeName n = Some out → n ≠ "" → out ≠ "".
Proof.
  unfold sanitizeName. intros Hout Hn.
  destruct (sanitizeScan n (rangeString n) newBuilder) as [[b' n']|] eqn:Hscan;
    [|done].
  cbn [mbind option_bind] in Hout.
  apply (sanitizeScan_spec n "") in Hscan
    as [(-> & -> & _)|(Hcap & q & _ & Hbuf)].
  - cbn in Hout. by injection Hout as <-.
  - rewrite (proj2 (Z.eqb_neq _ _)) in Hout by lia. injection Hout as <-.
    unfold sanitizeRest. rewrite sanitizeRest_buf.
    destruct Hbuf as [->|[_ ->]]; [|done].
    change ("" +:+ q) with q. destruct q; [done|].
    by rewrite !app_cons.
Qed.

Lemma matchesGrammar_app (s t : string) :
  matchesGrammar s = true → matchesGrammar t = true →
  allChars nameChar t = true → matchesGrammar (s +:+ t) = true.
Proof.
  destruct s as [|a s]; [done|]. rewrite app_cons. cbn [matchesGrammar].
  intros [Ha Hs]%andb_true_iff _ Ht. by rewrite Ha, allChars_app, Hs, Ht.
Qed.

(** ** More on the histogram buckets *)

Lemma sumZ_take_mono (l : list Z) (i j : nat) :
  Forall (λ c, 0 ≤ c) l → (i ≤ j)%nat → sumZ (take i l) ≤ sumZ (take j l).
Proof.
  intros Hl Hij.
  replace (take i l) with (take i (take j l))
    by (rewrite take_take; f_equal; lia).
  apply sumZ_take_le. by apply Forall_take.
Qed.

Lemma accumulateBuckets_short (bounds : list float64) (i : nat)
    (counts : list Z) (acc : Z) (buckets : Buckets.t) :
  (i ≤ length counts < i + length bounds)%nat →
  accumulateBuckets bounds i counts acc buckets = None.
Proof.
  revert i acc buckets.
  induction bounds as [|b bounds IH]; intros i acc buckets Hlen;
    cbn in Hlen; [lia|].
  cbn [accumulateBuckets]. destruct (counts !! i) as [c|] eqn:Hc; [|done].
  cbn [mbind option_bind]. apply IH. apply lookup_lt_Some in Hc. lia.
Qed.

(** X4. For strictly ascending bounds and counts whose total fits in a
    [uint64], the counts of the map do not decrease along the bounds, and
    none exceeds the sum of the counts of the finite buckets. *)
Theorem cumulativeBuckets_monotone (Bounds : list float64)
    (BucketCounts : list Z) :
  length BucketCounts = S (length Bounds) →
  strictlyAscending Bounds = true →
  Forall (λ c, 0 ≤ c) BucketCounts →
  sumZ BucketCounts < 2 ^ 64 →
  ∃ buckets : list (float64 * Z),
    cumulativeBuckets Bounds BucketCounts = Some buckets
    ∧ length buckets = length Bounds
    ∧ ∀ i j bi ci bj cj,
        (i ≤ j)%nat →
        buckets !! i = Some (bi, ci) → buckets !! j = Some (bj, cj) →
        0 ≤ ci ≤ cj
        ∧ cj ≤ sumZ (take (length Bounds) BucketCounts).
Proof.
  intros Hlen Hasc Hpos Hsmall.
  exists (imap (λ j b, (b, sumZ (take (S (0 + j)) BucketCounts) mod 2 ^ 64))
               Bounds).
  split.
  { unfold cumulativeBuckets.
    by rewrite (accumulateBuckets_spec Bounds [] 0 BucketCounts 0 []);
      [|done|done|lia|done|done]. }
  split; [by rewrite length_imap|].
  intros i j bi ci bj cj Hij.
  rewrite !list_lookup_imap.
  destruct (Bounds !! i) as [x|] eqn:Hi; [|done].
  destruct (Bounds !! j) as [y|] eqn:Hj; [|done].
  cbn. intros [= <- <-] [= <- <-].
  apply lookup_lt_Some in Hj.
  pose proof (sumZ_take_le BucketCounts (S i) Hpos).
  pose proof (sumZ_take_le BucketCounts (S j) Hpos).
  rewrite !Z.mod_small by lia.
  pose proof (sumZ_take_mono BucketCounts (S i) (S j) Hpos ltac:(lia)).
  pose proof (sumZ_take_mono BucketCounts (S j) (length Bounds) Hpos
                ltac:(lia)).
  lia.
Qed.

(** ** More on the translators *)

Section MoreProperties.

Context `{Collaborators}.

Lemma accounted (outs : list (PromMetric + Error)) :
  (length (records outs) + length (errors outs))%nat = length outs.
Proof.
  unfold records, errors. induction outs as [|[m|err] outs IH]; cbn; lia.
Qed.

Lemma outcomes_length {A B} (outcome : nat → A → option B) (k : nat)
    (dps : list A) (outs : list B) :
  outcomesFrom outcome k dps = Some <$> outs → length outs = length dps.
Proof.
  intros Houts. apply (f_equal length) in Houts.
  unfold outcomesFrom in Houts. by rewrite length_imap, length_fmap in Houts.
Qed.

(** Every outcome is there, or one is missing. *)
Lemma outcomes_or_panic {B} (l : list (option B)) :
  (∃ outs, l = Some <$> outs) ∨ None ∈ l.
Proof.
  induction l as [|[o|] l [[outs ->]|Hin]].
  - left. by exists [].
  - left. by exists (o :: outs).
  - right. by apply list_elem_of_further.
  - right. apply list_elem_of_here.
  - right. apply list_elem_of_here.
Qed.

(** X1. [addGaugeMetric] never panics; for every data point it either
    sends one record or reports one error; every record it sends is a
    constant metric of kind gauge under the name it was given, without
    suffix. *)
Theorem addGaugeMetric_kind_and_name {N} `{!Number N} (gauge : Gauge N)
    (m : Metrics) (name : string) (e : Env) :
  ∃ e' new errs,
    addGaugeMetric gauge m name e = Some (tt, e')
    ∧ ch e' = ch e ++ new
    ∧ handled e' = handled e ++ errs
    ∧ (length new + length errs)%nat = length (gaugeDataPoints gauge)
    ∧ ∀ r, r ∈ new →
        ∃ keys v lv,
          r = constMetric (NewDesc name (Description m) keys) GaugeValue v lv.
Proof.
  destruct (scalarOutcomes_are_Some name (Description m) GaugeValue
              (ranges e) (gaugeDataPoints gauge)) as (outs & Houts & Hrecs).
  exists (absorb outs e), (records outs), (errors outs).
  split; [by apply addGaugeMetric_run|]. split; [done|]. split; [done|].
  split; [|exact Hrecs].
  by rewrite accounted, (outcomes_length _ _ _ _ Houts).
Qed.

(** X2. Every data point of a Sum, and every data point of a Histogram
    whose data points have one bucket count more than bounds, is accounted
    for: the translator sends one record or reports one error for it, and
    ranges over one map. *)
Theorem data_points_accounted :
  (∀ N (numeric : Number N) (sum : Sum N) (m : Metrics) (name : string)
     (e : Env),
     ∃ e' new errs,
       addSumMetric sum m name e = Some (tt, e')
       ∧ ch e' = ch e ++ new
       ∧ handled e' = handled e ++ errs
       ∧ (length new + length errs)%nat = length (sumDataPoints sum)
       ∧ ranges e' = (ranges e + length (sumDataPoints sum))%nat)
  ∧ (∀ (histogram : Histogram) (m : Metrics) (name : string) (e : Env),
       Forall (λ dp, length (hBucketCounts dp) = S (length (hBounds dp)))
              (histDataPoints histogram) →
       ∃ e' new errs,
         addHistogramMetric histogram m name e = Some (tt, e')
         ∧ ch e' = ch e ++ new
         ∧ handled e' = handled e ++ errs
         ∧ (length new + length errs)%nat
           = length (histDataPoints histogram)
         ∧ ranges e' = (ranges e + length (histDataPoints histogram))%nat).
Proof.
  split.
  - intros N numeric sum m name e.
    destruct (scalarOutcomes_are_Some
                (if IsMonotonic sum then name +:+ counterSuffix else name)
                (Description m)
                (if IsMonotonic sum then CounterValue else GaugeValue)
                (ranges e) (sumDataPoints sum)) as (outs & Houts & _).
    exists (absorb outs e), (records outs), (errors outs).
    split; [by apply addSumMetric_run|]. split; [done|]. split; [done|].
    pose proof (outcomes_length _ _ _ _ Houts) as Hlen.
    split; [by rewrite accounted|]. cbn. by rewrite Hlen.
  - intros histogram m name e Hwf.
    destruct (histogramOutcomes_are_Some name (Description m) (ranges e)
                (histDataPoints histogram) Hwf) as [outs Houts].
    exists (absorb outs e), (records outs), (errors outs).
    split; [by apply addHistogramMetric_run|]. split; [done|].
    split; [done|].
    pose proof (outcomes_length _ _ _ _ Houts) as Hlen.
    split; [by rewrite accounted|]. cbn. by rewrite Hlen.
Qed.

(** X3. A data point of a Histogram with fewer bucket counts than bounds
    makes [addHistogramMetric] panic, on the index into [BucketCounts],
    wherever it stands among the data points. *)
Theorem addHistogramMetric_short_counts_panic (histogram : Histogram)
    (m : Metrics) (name : string) (dp : HistogramDataPoint) (e : Env) :
  dp ∈ histDataPoints histogram →
  (length (hBucketCounts dp) < length (hBounds dp))%nat →
  addHistogramMetric histogram m name e = None.
Proof.
  intros [j Hj]%list_elem_of_lookup Hshort.
  apply (forEach_panics (histogramOutcome name (Description m))).
  { intros dp' e'. apply histogramBody_run. }
  apply list_elem_of_lookup. exists j. unfold outcomesFrom.
  rewrite list_lookup_imap, Hj. cbn. f_equal.
  unfold histogramOutcome. destruct (getAttrs _ _) as [keys values].
  unfold cumulativeBuckets.
  by rewrite accumulateBuckets_short by (cbn; lia).
Qed.

(** X5. Every record [addHistogramMetric] sends is a constant histogram
    that comes from one of the data points: under the name the translator
    was given, unchanged, with the description of the metric, the count and
    the sum of the data point, its cumulative bucket map, and as many label
    values as label names. *)
Theorem addHistogramMetric_records (histogram : Histogram) (m : Metrics)
    (name : string) (e e' : Env) :
  addHistogramMetric histogram m name e = Some (tt, e') →
  ∃ new,
    ch e' = ch e ++ new
    ∧ ∀ r, r ∈ new →
        ∃ dp keys values buckets,
          dp ∈ histDataPoints histogram
          ∧ cumulativeBuckets (hBounds dp) (hBucketCounts dp) = Some buckets
          ∧ length keys = length values
          ∧ r = constHistogram (NewDesc name (Description m) keys)
                               (hCount dp) (hSum dp) buckets values.
Proof.
  intros Hrun.
  destruct (outcomes_or_panic
              (outcomesFrom (histogramOutcome name (Description m))
                            (ranges e) (histDataPoints histogram)))
    as [[outs Houts]|Hpanic].
  2:{ unfold addHistogramMetric in Hrun.
      rewrite (forEach_panics (histogramOutcome name (Description m)))
        in Hrun; [done| |done].
      intros dp' e''. apply histogramBody_run. }
  rewrite (addHistogramMetric_run _ _ _ _ outs Houts) in Hrun.
  injection Hrun as <-. exists (records outs). split; [done|].
  intros r [o [Ho Hr]]%list_elem_of_omap.
  destruct o as [r'|]; [|done]. injection Hr as ->.
  apply list_elem_of_lookup in Ho as [j Hj].
  assert ((Some <$> outs) !! j = Some (Some (inl r))) as Hj'
    by (by rewrite list_lookup_fmap, Hj).
  rewrite <- Houts in Hj'. unfold outcomesFrom in Hj'.
  rewrite list_lookup_imap in Hj'.
  destruct (histDataPoints histogram !! j) as [dp|] eqn:Hdp; [|done].
  cbn in Hj'. injection Hj' as Hout.
  apply histogramOutcome_record in Hout
    as (keys & values & buckets & Hattrs & Hbuckets & ->).
  exists dp, keys, values, buckets.
  split; [by eapply list_elem_of_lookup_2|]. split; [done|]. split; [|done].
  rewrite getAttrs_entries in Hattrs. injection Hattrs as <- <-.
  by rewrite !length_fmap.
Qed.

(** *** Scrapes *)

Lemma forEach_panics_at {A} (l : list A) (body : A → M unit) (x : A)
    (e : Env) :
  x ∈ l → (∀ e, body x e = None) → forEach l body e = None.
Proof.
  intros Hin Hx. revert e.
  induction l as [|y l IH]; intros e; [by apply elem_of_nil in Hin|].
  cbn [forEach]. rewrite bind_run.
  apply elem_of_cons in Hin as [<-|Hin]; [by rewrite Hx|].
  destruct (body y e) as [[[] e1]|]; [by apply IH|done].
Qed.

(** The [sync.Once] of the target info on a collector on which it has not
    run: the target info is built from the resource under the next map
    iteration; a rejected one is reported and disables the target info. *)
Lemma createTargetInfo_first (c : collector) (metrics : ResourceMetrics)
    (e : Env) :
  createTargetInfoOnce c = false →
  createTargetInfo c metrics e
  = let '(keys, values) :=
      getAttrs (runtimeOrder (ranges e)) (Resource metrics) in
    let desc := NewDesc targetInfoMetricName targetInfoDescription keys in
    match constMetricError desc GaugeValue (float64_of_Z 1) values with
    | None =>
      Some ({| disableTargetInfo := disableTargetInfo c;
               withoutUnits := withoutUnits c;
               targetInfo := constMetric desc GaugeValue (float64_of_Z 1)
                                         values;
               createTargetInfoOnce := true |},
            {| ch := ch e; handled := handled e;
               ranges := S (ranges e) |})
    | Some err =>
      Some ({| disableTargetInfo := true;
               withoutUnits := withoutUnits c;
               targetInfo := nilMetric;
               createTargetInfoOnce := true |},
            {| ch := ch e; handled := handled e ++ [err];
               ranges := S (ranges e) |})
    end.
Proof.
  intros Hfresh. unfold createTargetInfo. rewrite Hfresh, bind_run.
  unfold createInfoMetric. rewrite bind_run. unfold nextRange.
  destruct (getAttrs _ _) as [keys values]. cbn [mret M_ret].
  unfold NewConstMetric. by destruct (constMetricError _ _ _ _).
Qed.

Lemma createTargetInfo_total (c : collector) (metrics : ResourceMetrics)
    (e : Env) :
  ∃ c' e', createTargetInfo c metrics e = Some (c', e')
           ∧ ch e' = ch e
           ∧ (disableTargetInfo c = true → disableTargetInfo c' = true
                                           ∧ handled e `prefix_of` handled e')
           ∧ (createTargetInfoOnce c = true → c' = c ∧ e' = e).
Proof.
  destruct (createTargetInfoOnce c) eqn:Hdone.
  - exists c, e. unfold createTargetInfo. rewrite Hdone. by repeat split.
  - rewrite createTargetInfo_first by done.
    destruct (getAttrs _ _) as [keys values]. cbn zeta.
    destruct (constMetricError _ _ _ _);
      eexists _, _; (split; [reflexivity|]); cbn;
      (split; [done|]); (split; [|done]); intros Hd; split; try done.
    by apply prefix_app_r.
Qed.

Lemma translateMetric_panics (c : collector) (m : Metrics) (e : Env) :
  Data m ≠ DataOther → sanitizeName (Name m) = None →
  translateMetric c m e = None.
Proof.
  intros Hdata Hname. unfold translateMetric.
  assert (getName c m = None) as -> by (unfold getName; by rewrite Hname).
  by destruct (Data m).
Qed.

(** X6. A metric of a kind the exporter translates whose name makes
    [sanitizeName] panic makes the whole of [Collect] panic, whatever else
    the snapshot holds and even when the metric has no data points: the
    name is computed before the data points are looked at. *)
Theorem Collect_panics_on_name (c : collector) (metrics : ResourceMetrics)
    (err : option Error) (scopeMetrics : ScopeMetrics) (m : Metrics)
    (e : Env) :
  err ≠ Some ErrReaderNotRegistered →
  scopeMetrics ∈ ScopeMetricsOf metrics →
  m ∈ ScopeMetricsList scopeMetrics →
  Data m ≠ DataOther →
  sanitizeName (Name m) = None →
  Collect c (metrics, err) e = None.
Proof.
  intros Herr Hscope Hm Hdata Hname.
  assert (∀ e, emitAll c metrics e = None) as Hemit.
  { intros e0. unfold emitAll. rewrite bind_run.
    destruct (createTargetInfo_total c metrics e0) as (c1 & e1 & -> & _).
    rewrite bind_run.
    destruct ((if negb (disableTargetInfo c1) then send (targetInfo c1)
               else mret ()) e1) as [[[] e2]|]; [|done].
    rewrite bind_run.
    rewrite (forEach_panics_at _ _ scopeMetrics); [done|done|].
    intros e3. apply (forEach_panics_at _ _ m); [done|].
    intros e4. by apply translateMetric_panics. }
  unfold Collect. destruct err as [err|]; [|apply Hemit].
  rewrite bind_run. cbn.
  rewrite bool_decide_eq_false_2 by congruence. apply Hemit.
Qed.

Lemma Collect_done (c c' : collector)
    (collected : ResourceMetrics * option Error) (e e' : Env) :
  createTargetInfoOnce c = true →
  Collect c collected e = Some (c', e') → c' = c.
Proof.
  intros Hdone. destruct collected as [metrics err].
  assert (∀ e, emitAll c metrics e = Some (c', e') → c' = c) as Hemit.
  { intros e0. unfold emitAll. rewrite bind_run.
    destruct (createTargetInfo_total c metrics e0)
      as (c1 & e1 & -> & _ & _ & Hsame).
    destruct (Hsame Hdone) as [-> ->]. rewrite bind_run.
    destruct ((if negb (disableTargetInfo c) then send (targetInfo c)
               else mret ()) e0) as [[[] e2]|]; [|done].
    rewrite bind_run. destruct (forEach _ _ e2) as [[[] e3]|]; [|done].
    by intros [= <- <-]. }
  unfold Collect. destruct err as [err|]; [|apply Hemit].
  rewrite bind_run. cbn. case_bool_decide; [|apply Hemit].
  by intros [= <- <-].
Qed.

(** X7. Once the [sync.Once] of the target info has run, the collector
    stays as it is through every later scrape, with its target info and
    its flags, and [Collect] does not read the resource of the snapshot
    again: a snapshot with another resource gives the same run. *)
Theorem target_info_built_once (c : collector) :
  createTargetInfoOnce c = true →
  (∀ collected e c' e', scrapes c collected e = Some (c', e') → c' = c)
  ∧ (∀ metrics resource err e,
       Collect c (metrics, err) e
       = Collect c ({| Resource := resource;
                       ScopeMetricsOf := ScopeMetricsOf metrics |}, err) e).
Proof.
  intros Hdone. split.
  - intros collected. induction collected as [|r rest IH]; intros e c' e'.
    { by intros [= <- <-]. }
    cbn [scrapes]. rewrite bind_run.
    destruct (Collect c r e) as [[c1 e1]|] eqn:Hrun; [|done].
    apply Collect_done in Hrun as ->; [|done]. apply IH.
  - intros metrics resource err e.
    unfold Collect, emitAll, createTargetInfo. by rewrite Hdone.
Qed.


(** X16. On a snapshot without scope metrics [Collect] returns and sends
    the target info and nothing else, or nothing at all when the target
    info is disabled; a collector configured without target info never
    sends it. *)
Theorem Collect_empty_snapshot (c : collector) (metrics : ResourceMetrics)
    (e : Env) :
  ScopeMetricsOf metrics = [] →
  ∃ c' e',
    Collect c (metrics, None) e = Some (c', e')
    ∧ ch e' = ch e ++ (if disableTargetInfo c' then [] else [targetInfo c'])
    ∧ (disableTargetInfo c = true → ch e' = ch e).
Proof.
  intros Hempty. cbn. unfold emitAll. rewrite bind_run, Hempty.
  destruct (createTargetInfo_total c metrics e)
    as (c1 & e1 & -> & Hch & Hdisabled & _).
  rewrite bind_run. exists c1.
  destruct (disableTargetInfo c1) eqn:Hd; cbn.
  - exists e1. rewrite (right_id_L [] (++)). by repeat split.
  - eexists. split; [reflexivity|]. cbn. rewrite Hch. split; [done|].
    intros [? _]%Hdisabled. congruence.
Qed.

(** *** What is sent is a record *)

Lemma sendsOnly_ret {A} (P : PromMetric → Prop) (a : A) :
  sendsOnly P (mret a).
Proof.
  intros e a' e' [= <- <-]. exists []. by rewrite (right_id_L [] (++)).
Qed.

Lemma sendsOnly_bind {A B} (P : PromMetric → Prop) (x : M A)
    (f : A → M B) :
  sendsOnly P x → (∀ a, sendsOnly P (f a)) → sendsOnly P (x ≫= f).
Proof.
  intros Hx Hf e b e'. rewrite bind_run.
  destruct (x e) as [[a e1]|] eqn:Hxe; [|done]. intros Hfe.
  destruct (Hx _ _ _ Hxe) as (new1 & Hch1 & Hnew1).
  destruct (Hf _ _ _ _ Hfe) as (new2 & Hch2 & Hnew2).
  exists (new1 ++ new2).
  split; [by rewrite Hch2, Hch1, (assoc_L (++))|].
  by apply Forall_app.
Qed.

Lemma sendsOnly_send (P : PromMetric → Prop) (m : PromMetric) :
  P m → sendsOnly P (send m).
Proof. intros Hm e a e' [= <- <-]. exists [m]. by repeat constructor. Qed.

Lemma sendsOnly_silent {A} (P : PromMetric → Prop) (x : M A) :
  (∀ e a e', x e = Some (a, e') → ch e' = ch e) → sendsOnly P x.
Proof.
  intros Hx e a e' Hrun. exists []. rewrite (right_id_L [] (++)).
  split; [by eapply Hx|done].
Qed.

Lemma sendsOnly_forEach {A} (P : PromMetric → Prop) (l : list A)
    (body : A → M unit) :
  (∀ x, sendsOnly P (body x)) → sendsOnly P (forEach l body).
Proof.
  intros Hbody. induction l as [|x l IH]; cbn [forEach].
  - apply sendsOnly_ret.
  - apply sendsOnly_bind; [done|]. by intros _.
Qed.

Lemma sendsOnly_constructed (sent : PromMetric + Error) :
  (∀ m, sent = inl m → m ≠ nilMetric) →
  sendsOnly (λ r, r ≠ nilMetric)
            (match sent with inr err => Handle err | inl m => send m end).
Proof.
  intros Hsent. destruct sent as [m|err].
  - apply sendsOnly_send. by apply Hsent.
  - apply sendsOnly_silent. by intros e a e' [= _ <-].
Qed.

Lemma NewConstMetric_record (desc : Desc) (valueType : ValueType)
    (value : float64) (values : list string) (m : PromMetric) :
  NewConstMetric desc valueType value values = inl m → m ≠ nilMetric.
Proof.
  unfold NewConstMetric. destruct (constMetricError _ _ _ _); [done|].
  by intros [= <-].
Qed.

Lemma NewConstHistogram_record (desc : Desc) (count : Z) (sum : float64)
    (buckets : Buckets.t) (values : list string) (m : PromMetric) :
  NewConstHistogram desc count sum buckets values = inl m → m ≠ nilMetric.
Proof.
  unfold NewConstHistogram. destruct (constHistogramError _ _ _ _ _);
    [done|].
  by intros [= <-].
Qed.

Lemma sendsOnly_translateMetric (c : collector) (m : Metrics) :
  sendsOnly (λ r, r ≠ nilMetric) (translateMetric c m).
Proof.
  assert (sendsOnly (λ r, r ≠ nilMetric) nextRange) as Hrange
    by (apply sendsOnly_silent; by intros e a e' [= _ <-]).
  assert (∀ A (x : option A), sendsOnly (λ r, r ≠ nilMetric) (orPanic x))
    as Hpanic.
  { intros A x. apply sendsOnly_silent. intros e a e'. unfold orPanic.
    destruct x; [|done]. by intros [= _ <-]. }
  unfold translateMetric.
  destruct (Data m) as [v|v|v|v|v|]; [..|apply sendsOnly_ret];
    (apply sendsOnly_bind; [apply Hpanic|intros name]).
  - apply sendsOnly_forEach. intros dp.
    apply sendsOnly_bind; [done|]. intros order.
    destruct (getAttrs _ _) as [keys values].
    apply sendsOnly_bind; [apply Hpanic|]. intros buckets.
    apply sendsOnly_constructed, NewConstHistogram_record.
  - apply sendsOnly_forEach. intros dp.
    apply sendsOnly_bind; [done|]. intros order.
    destruct (getAttrs _ _) as [keys values].
    apply sendsOnly_constructed, NewConstMetric_record.
  - apply sendsOnly_forEach. intros dp.
    apply sendsOnly_bind; [done|]. intros order.
    destruct (getAttrs _ _) as [keys values].
    apply sendsOnly_constructed, NewConstMetric_record.
  - apply sendsOnly_forEach. intros dp.
    apply sendsOnly_bind; [done|]. intros order.
    destruct (getAttrs _ _) as [keys values].
    apply sendsOnly_constructed, NewConstMetric_record.
  - apply sendsOnly_forEach. intros dp.
    apply sendsOnly_bind; [done|]. intros order.
    destruct (getAttrs _ _) as [keys values].
    apply sendsOnly_constructed, NewConstMetric_record.
Qed.

Lemma createTargetInfo_ready (c c' : collector) (metrics : ResourceMetrics)
    (e e' : Env) :
  targetInfoReady c →
  createTargetInfo c metrics e = Some (c', e') →
  targetInfoReady c' ∧ ch e' = ch e.
Proof.
  intros Hready. destruct (createTargetInfoOnce c) eqn:Hdone.
  - unfold createTargetInfo. rewrite Hdone. by intros [= <- <-].
  - rewrite createTargetInfo_first by done.
    destruct (getAttrs _ _) as [keys values]. cbn zeta.
    destruct (constMetricError _ _ _ _); intros [= <- <-];
      (split; [|done]); by intros _ ?.
Qed.

Lemma Collect_ready (c c' : collector)
    (collected : ResourceMetrics * option Error) (e e' : Env) :
  targetInfoReady c →
  Collect c collected e = Some (c', e') →
  targetInfoReady c'
  ∧ ∃ new, ch e' = ch e ++ new ∧ Forall (λ r, r ≠ nilMetric) new.
Proof.
  intros Hready. destruct collected as [metrics err].
  assert (∀ e, emitAll c metrics e = Some (c', e') →
               targetInfoReady c'
               ∧ ∃ new, ch e' = ch e ++ new
                        ∧ Forall (λ r, r ≠ nilMetric) new) as Hemit.
  { intros e0. unfold emitAll. rewrite bind_run.
    destruct (createTargetInfo c metrics e0) as [[c1 e1]|] eqn:Honce;
      [|done].
    pose proof (createTargetInfo_run _ _ _ _ _ Honce)
      as (Hdone1 & _ & Hch1 & _).
    apply createTargetInfo_ready in Honce as [Hready1 _]; [|done].
    intros Hrest.
    assert (sendsOnly (λ r, r ≠ nilMetric)
              ((if negb (disableTargetInfo c1) then send (targetInfo c1)
                else mret ());;
               forEach (ScopeMetricsOf metrics) (λ scopeMetrics,
                 forEach (ScopeMetricsList scopeMetrics)
                         (translateMetric c1));;
               mret c1)) as Hsends.
    { apply sendsOnly_bind.
      - destruct (disableTargetInfo c1) eqn:Hd; cbn [negb];
          [apply sendsOnly_ret|].
        apply sendsOnly_send. by apply Hready1.
      - intros _. apply sendsOnly_bind; [|intros _; apply sendsOnly_ret].
        apply sendsOnly_forEach. intros scopeMetrics.
        apply sendsOnly_forEach. apply sendsOnly_translateMetric. }
    destruct (Hsends _ _ _ Hrest) as (new & Hnew & Hrecords).
    assert (c' = c1) as ->.
    { revert Hrest. rewrite bind_run.
      destruct ((if negb (disableTargetInfo c1) then send (targetInfo c1)
                 else mret ()) e1) as [[[] e2]|]; [|done].
      rewrite bind_run. destruct (forEach _ _ e2) as [[[] e3]|]; [|done].
      by intros [= <- _]. }
    split; [done|]. exists new. by rewrite Hnew, Hch1. }
  unfold Collect. destruct err as [err|]; [|apply Hemit].
  rewrite bind_run. cbn. case_bool_decide.
  - intros [= <- <-]. split; [done|]. exists [].
    by rewrite (right_id_L [] (++)).
  - intros Hrun. apply Hemit in Hrun as [? (new & Hnew & ?)].
    split; [done|]. by exists new.
Qed.

(** X9. The collector that [New] builds never sends a nil metric: in
    every scrape of its lifetime what is added to the channel are records
    that a constructor of the target returned, the target info being sent
    only once it has been built. *)
Theorem scrapes_send_records (cfg : config)
    (collected : list (ResourceMetrics * option Error)) (e e' : Env)
    (c' : collector) :
  scrapes (newCollector cfg) collected e = Some (c', e') →
  ∃ new, ch e' = ch e ++ new ∧ Forall (λ r, r ≠ nilMetric) new.
Proof.
  assert (targetInfoReady (newCollector cfg)) as Hready by (by intros ?).
  revert Hready. generalize (newCollector cfg). intros c Hready.
  revert c e Hready.
  induction collected as [|r rest IH]; intros c e Hready.
  { intros [= <- <-]. exists []. by rewrite (right_id_L [] (++)). }
  cbn [scrapes]. rewrite bind_run.
  destruct (Collect c r e) as [[c1 e1]|] eqn:Hrun; [|done].
  apply Collect_ready in Hrun as (Hready1 & new1 & Hch1 & Hnew1); [|done].
  intros (new2 & Hch2 & Hnew2)%IH; [|done].
  exists (new1 ++ new2).
  split; [by rewrite Hch2, Hch1, (assoc_L (++))|].
  by apply Forall_app.
Qed.

(** *** The names that reach the target *)

Lemma unitSuffix_grammar (u : Unit) (suffix : string) :
  unitSuffix u = Some suffix →
  matchesGrammar suffix = true ∧ allChars nameChar suffix = true.
Proof.
  unfold unitSuffix, unitSuffixes. cbn [find fst].
  repeat case_bool_decide; by intros [= <-].
Qed.

(** X12. The name [getName] returns is empty or matches the target
    grammar, with the unit suffix it carries, and matches it with the
    "_total" that [addSumMetric] appends for a counter; it is not empty
    unless the name of the metric is. *)
Theorem getName_matches_grammar (c : collector) (m : Metrics)
    (name : string) :
  getName c m = Some name →
  matchesGrammar name = true
  ∧ matchesGrammar (name +:+ counterSuffix) = true
  ∧ (Name m ≠ "" → name ≠ "").
Proof.
  unfold getName.
  destruct (sanitizeName (Name m)) as [s|] eqn:Hs; [|done].
  cbn [mbind option_bind]. intros Hname.
  pose proof (sanitizeName_grammar _ _ Hs) as Hgrammar.
  pose proof (sanitizeName_nonempty _ _ Hs) as Hnonempty.
  assert (matchesGrammar name = true ∧ (s ≠ "" → name ≠ "")) as [Hn Hne].
  { destruct (withoutUnits c); [by injection Hname as <-|].
    destruct (unitSuffix (MetricUnit m)) as [suffix|] eqn:Hu;
      injection Hname as <-; [|done].
    apply unitSuffix_grammar in Hu as [? ?].
    split; [by apply matchesGrammar_app|].
    destruct s; [done|]. by rewrite app_cons. }
  split; [done|]. split; [by apply matchesGrammar_app|]. auto.
Qed.

(** *** More on the attribute encoder *)

Lemma filter_unique {A B} `{!EqDecision B} (f : A → B) (l : list A)
    (x : A) :
  NoDup (f <$> l) → x ∈ l → filter (λ y, f y = f x) l = [x].
Proof.
  induction l as [|y l IH]; intros Hnodup Hin; [by apply elem_of_nil in Hin|].
  rewrite fmap_cons in Hnodup. apply NoDup_cons in Hnodup as [Hy Hnodup].
  apply elem_of_cons in Hin as [->|Hin].
  - rewrite filter_cons_True by done. f_equal.
    apply elem_of_nil_inv. intros z [Hz Hzl]%list_elem_of_filter.
    apply Hy. rewrite <- Hz. apply list_elem_of_fmap. by exists z.
  - rewrite filter_cons_False; [by apply IH|].
    intros Heq. apply Hy. rewrite Heq. apply list_elem_of_fmap.
    by exists x.
Qed.

Lemma visited_keys
    (order : gmap string (list string) → list (string * list string))
    (attrs : AttributeSet) :
  order (groupAttrs attrs) ≡ₚ map_to_list (groupAttrs attrs) →
  NoDup ((order (groupAttrs attrs)).*1)
  ∧ ∀ k, k ∈ (order (groupAttrs attrs)).*1 → k ∈ sanitizedKey <$> attrs.
Proof.
  intros Hperm. split.
  - rewrite Hperm. apply NoDup_fst_map_to_list.
  - intros k [[k' vals] [-> Hin]]%list_elem_of_fmap.
    apply elem_of_visited in Hin as [_ (kv & Hkv & <-)]; [|done].
    apply list_elem_of_fmap. by exists kv.
Qed.

(** X13. [getAttrs] returns at most as many labels as the set has
    attributes, and none for the empty set. *)
Theorem getAttrs_label_count
    (order : gmap string (list string) → list (string * list string))
    (attrs : AttributeSet) (keys values : list string) :
  order (groupAttrs attrs) ≡ₚ map_to_list (groupAttrs attrs) →
  getAttrs order attrs = (keys, values) →
  (length keys ≤ length attrs)%nat
  ∧ (attrs = [] → keys = [] ∧ values = []).
Proof.
  intros Hperm. rewrite getAttrs_entries. intros [= <- <-].
  destruct (visited_keys order attrs Hperm) as [Hnodup Hsub].
  assert (length ((order (groupAttrs attrs)).*1) ≤ length attrs)%nat as Hlen.
  { rewrite <- (length_fmap sanitizedKey attrs).
    apply submseteq_length, NoDup_submseteq; [done|]. exact Hsub. }
  split; [done|]. intros ->. rewrite length_fmap in Hlen.
  destruct (order (groupAttrs [])) as [|entry entries]; [done|].
  cbn in Hlen. lia.
Qed.

(** X14. When no two attributes of the set have the same sanitized key,
    [getAttrs] returns one label for each attribute: its sanitized key
    with the text of its value, nothing joined to it. *)
Theorem getAttrs_without_collisions
    (order : gmap string (list string) → list (string * list string))
    (attrs : AttributeSet) :
  order (groupAttrs attrs) ≡ₚ map_to_list (groupAttrs attrs) →
  (∀ vals, sortSlice (λ i j, Nat.ltb i j) vals ≡ₚ vals) →
  NoDup (sanitizedKey <$> attrs) →
  labels (getAttrs order attrs)
  ≡ₚ (λ kv, (sanitizedKey kv, Emit (Value kv))) <$> attrs.
Proof.
  intros Hperm Hsort Hnodup. rewrite getAttrs_entries. unfold labels.
  cbn [fst snd]. rewrite zip_fst_fmap, Hperm.
  assert (map_to_list (groupAttrs attrs)
          ≡ₚ (λ kv, (sanitizedKey kv, [Emit (Value kv)])) <$> attrs)
    as ->.
  { assert (∀ kv, kv ∈ attrs →
              valuesUnder (sanitizedKey kv) attrs = [Emit (Value kv)])
      as Hunder.
    { intros kv Hkv. unfold valuesUnder.
      by rewrite (filter_unique sanitizedKey attrs kv). }
    apply NoDup_Permutation.
    - apply NoDup_map_to_list.
    - apply (NoDup_fmap_1 fst). by rewrite <- list_fmap_compose.
    - intros [k vals]. rewrite elem_of_map_to_list, groupAttrs_lookup.
      rewrite list_elem_of_fmap. split.
      + intros Hk.
        destruct (valuesUnder k attrs) as [|v vs] eqn:Hvals; [done|].
        injection Hk as <-. unfold valuesUnder in Hvals.
        destruct (filter _ attrs) as [|kv kvs] eqn:Hf; [done|].
        assert (kv ∈ filter (λ kv, sanitizedKey kv = k) attrs) as Hkv
          by (rewrite Hf; apply list_elem_of_here).
        apply list_elem_of_filter in Hkv as [<- Hkv].
        exists kv. split; [|done].
        f_equal. rewrite <- Hvals, <- Hf. apply (Hunder kv Hkv).
      + intros (kv & [= -> ->] & Hkv). by rewrite (Hunder kv Hkv). }
  rewrite <- list_fmap_compose.
  assert (∀ A (l k : list A), l = k → l ≡ₚ k) as Heq by (by intros ??? ->).
  apply Heq, list_fmap_ext. intros i kv _. unfold compose. cbn [fst snd].
  f_equal.
  pose proof (Hsort [Emit (Value kv)]) as Hone.
  apply Permutation_singleton_r in Hone. by rewrite Hone.
Qed.

Lemma sanitizeRune_ascii (a : ascii) :
  rune a < 0x80 →
  0 ≤ sanitizeRune (rune a) < 0x80
  ∧ byte (sanitizeRune (rune a))
    = keepIf (λ a, IsLetter (rune a) || IsDigit (rune a)
                   || (rune a =? rune ":") || (rune a =? rune "_")) a.
Proof.
  intros Ha. pose proof (rune_bounds a). unfold sanitizeRune, keepIf.
  destruct (_ || _ || _ || _).
  - split; [lia|apply byte_rune].
  - by vm_compute.
Qed.

Lemma Map_sanitizeRune_ascii (k : Z) (s : string) :
  asciiOnly s = true →
  foldr (λ '(_, c) acc,
           let r := sanitizeRune c in
           if r <? 0 then acc else encodeRune r +:+ acc)
        "" (rangeFrom 0 k s)
  = mapChars
      (keepIf (λ a, IsLetter (rune a) || IsDigit (rune a)
                    || (rune a =? rune ":") || (rune a =? rune "_"))) s.
Proof.
  revert k. induction s as [|a t IH]; intros k; [done|].
  intros [Ha Ht]%asciiOnly_cons. rewrite rangeFrom_ascii by done.
  cbn [foldr mapChars]. rewrite IH by done. cbn zeta.
  destruct (sanitizeRune_ascii a Ha) as [Hr <-].
  rewrite (proj2 (Z.ltb_ge _ _)) by lia. unfold encodeRune.
  rewrite !(proj2 (andb_true_iff _ _)) by (split; apply Z.leb_le; lia).
  done.
Qed.

(** X15. On an ASCII key the sanitized key has the characters of the
    key, each one kept when it is a letter, a digit, a colon or an
    underscore and replaced by an underscore otherwise; the key keeps its
    length, and a leading digit stays where it is. *)
Theorem sanitizedKey_ascii (kv : KeyValue) :
  asciiOnly (Key kv) = true →
  sanitizedKey kv
  = mapChars
      (keepIf (λ a, IsLetter (rune a) || IsDigit (rune a)
                    || (rune a =? rune ":") || (rune a =? rune "_")))
      (Key kv)
  ∧ String.length (sanitizedKey kv) = String.length (Key kv).
Proof.
  intros Hascii. unfold sanitizedKey, GoString.Map, rangeString.
  rewrite Map_sanitizeRune_ascii by done. split; [done|].
  clear. induction (Key kv) as [|a t IH]; [done|]. cbn. by rewrite IH.
Qed.

End MoreProperties.

(** ** The file client *)

Section FileClientProperties.

Context {Error Message : Type}.
Variable Marshal : Message → string + Error.
Variable openError : gmap string string → string → option Error.
Variable writeError :
  gmap string string → string → string → option (nat * Error).

#[local] Abbreviation UploadMetrics :=
  (FileClient.UploadMetrics Marshal openError writeError).

Lemma OpenFile_lookup (files files' : gmap string string) (name : string) :
  FileClient.OpenFile openError files name = inl files' →
  files' !! name = Some (default "" (files !! name))
  ∧ ∀ other, other ≠ name → files' !! other = files !! other.
Proof.
  unfold FileClient.OpenFile. destruct (openError files name); [done|].
  intros [= <-]. destruct (files !! name) as [old|] eqn:Hold.
  - by rewrite Hold.
  - split; [by rewrite lookup_insert_eq|].
    intros other Hother. by rewrite lookup_insert_ne.
Qed.

Lemma Write_lookup (files files' : gmap string string) (name bytes : string)
    (old : string) (err : option Error) :
  FileClient.Write writeError files name bytes = (files', err) →
  files !! name = Some old →
  (∃ n, files' !! name = Some (old +:+ substring 0 n bytes))
  ∧ (err = None → files' !! name = Some (old +:+ bytes))
  ∧ ∀ other, other ≠ name → files' !! other = files !! other.
Proof.
  unfold FileClient.Write. intros Hwrite Hold.
  destruct (writeError files name bytes) as [[n werr]|];
    injection Hwrite as <- <-.
  - split; [|split; [done|]].
    + exists n. by rewrite lookup_alter_eq, Hold.
    + intros other Hother. by rewrite lookup_alter_ne.
  - split; [|split].
    + exists (String.length bytes).
      by rewrite lookup_alter_eq, Hold, substring_all.
    + by rewrite lookup_alter_eq, Hold.
    + intros other Hother. by rewrite lookup_alter_ne.
Qed.

(** X17. Whatever [UploadMetrics] returns, it has kept every file, cut
    nothing off any, and touched no file but the client's: the content a
    file had is the beginning of the content it has, and the other files
    are as they were. *)
Theorem UploadMetrics_appends (f : FileClient.fileClient) (rms : Message)
    (files files' : gmap string string) (err : option Error) :
  UploadMetrics f rms files = (err, files') →
  (∀ name old, files !! name = Some old →
               ∃ added, files' !! name = Some (old +:+ added))
  ∧ (∀ name, name ≠ FileClient.fileName f →
             files' !! name = files !! name).
Proof.
  unfold FileClient.UploadMetrics.
  destruct (FileClient.OpenFile openError files (FileClient.fileName f))
    as [opened|oerr] eqn:Hopen.
  2:{ intros [= <- <-]. split; [|done]. intros name old Hold.
      exists "". by rewrite app_nil_r. }
  apply OpenFile_lookup in Hopen as [Hfile Hothers].
  assert (∀ name old, files !! name = Some old →
                      opened !! name = Some old) as Hkept.
  { intros name old Hold.
    destruct (decide (name = FileClient.fileName f)) as [->|Hne].
    - by rewrite Hfile, Hold.
    - by rewrite Hothers. }
  destruct (Marshal rms) as [bytes|merr].
  2:{ intros [= <- <-]. split; [|done]. intros name old Hold%Hkept.
      exists "". by rewrite app_nil_r. }
  cbn zeta.
  destruct (FileClient.Write writeError opened (FileClient.fileName f) _)
    as [written werr] eqn:Hwrite.
  pose proof (Write_lookup _ _ _ _ _ _ Hwrite Hfile)
    as ([n Hn] & _ & Hrest).
  intros Hrun.
  assert (files' = written) as -> by (by destruct werr; injection Hrun).
  split.
  - intros name old Hold.
    destruct (decide (name = FileClient.fileName f)) as [->|Hne].
    + rewrite Hn, Hold. by eexists.
    + exists "". rewrite app_nil_r, Hrest by done. by apply Hkept.
  - intros name Hne. by rewrite Hrest, Hothers.
Qed.

(** X18. When [UploadMetrics] returns no error, the client's file holds
    what it held before, nothing if it did not exist, followed by the
    marshalled message and a newline; two uploads in a row leave the two
    lines one after the other. *)
Theorem UploadMetrics_writes_a_line (f : FileClient.fileClient) :
  (∀ rms files files',
     UploadMetrics f rms files = (None, files') →
     ∃ json, Marshal rms = inl json
             ∧ files' !! FileClient.fileName f
               = Some (default "" (files !! FileClient.fileName f)
                       +:+ json +:+ String "010" ""))
  ∧ (∀ rms1 rms2 files files1 files2,
       UploadMetrics f rms1 files = (None, files1) →
       UploadMetrics f rms2 files1 = (None, files2) →
       ∃ json1 json2,
         Marshal rms1 = inl json1 ∧ Marshal rms2 = inl json2
         ∧ files2 !! FileClient.fileName f
           = Some (default "" (files !! FileClient.fileName f)
                   +:+ json1 +:+ String "010" ""
                   +:+ json2 +:+ String "010" "")).
Proof.
  assert (∀ rms files files',
            UploadMetrics f rms files = (None, files') →
            ∃ json, Marshal rms = inl json
                    ∧ files' !! FileClient.fileName f
                      = Some (default "" (files !! FileClient.fileName f)
                              +:+ json +:+ String "010" "")) as Hone.
  { intros rms files files'. unfold FileClient.UploadMetrics.
    destruct (FileClient.OpenFile openError files (FileClient.fileName f))
      as [opened|oerr] eqn:Hopen; [|done].
    apply OpenFile_lookup in Hopen as [Hfile _].
    destruct (Marshal rms) as [bytes|merr]; [|done]. cbn zeta.
    destruct (FileClient.Write writeError opened (FileClient.fileName f) _)
      as [written werr] eqn:Hwrite.
    pose proof (Write_lookup _ _ _ _ _ _ Hwrite Hfile) as (_ & Hfull & _).
    destruct werr; [done|]. intros [= <-]. exists bytes.
    split; [done|]. by apply Hfull. }
  split; [exact Hone|].
  intros rms1 rms2 files files1 files2 (json1 & H1 & Hfile1)%Hone
         (json2 & H2 & Hfile2)%Hone.
  exists json1, json2. split; [done|]. split; [done|].
  rewrite Hfile2, Hfile1. unfold default at 1. cbn [from_option].
  unfold id. by rewrite !app_assoc.
Qed.

End FileClientProperties.

(** ** The theorems at work on the instance *)

Import Demo.

(** C1 at bounds [1, 5, 10] and bucket counts [2, 3, 4, 1]. *)
Lemma cumulativeBuckets_prefix_sums_witness :
  length [2; 3; 4; 1] = S (length (float64_of_Z <$> [1; 5; 10]))
  ∧ strictlyAscending (float64_of_Z <$> [1; 5; 10]) = true
  ∧ ∃ buckets,
      cumulativeBuckets (float64_of_Z <$> [1; 5; 10]) [2; 3; 4; 1]
      = Some buckets
      ∧ Buckets.get (float64_of_Z 1) buckets = Some 2
      ∧ Buckets.get (float64_of_Z 5) buckets = Some 5
      ∧ Buckets.get (float64_of_Z 10) buckets = Some 9
      ∧ cumulativeBuckets (float64_of_Z <$> [1; 5; 10]) [2; 3; 4; 1000]
        = Some buckets.
Proof.
  assert (length [2; 3; 4; 1] = S (length (float64_of_Z <$> [1; 5; 10])))
    as Hlen by reflexivity.
  assert (strictlyAscending (float64_of_Z <$> [1; 5; 10]) = true)
    as Hasc by reflexivity.
  split; [exact Hlen|]. split; [exact Hasc|].
  destruct (proj1 cumulativeBuckets_prefix_sums
              (float64_of_Z <$> [1; 5; 10]) [2; 3; 4; 1] Hlen Hasc)
    as (buckets & Hrun & _ & Hget & _ & Hoverflow).
  exists buckets. split; [exact Hrun|].
  split; [exact (Hget 0%nat (float64_of_Z 1) eq_refl ltac:(discriminate))|].
  split; [exact (Hget 1%nat (float64_of_Z 5) eq_refl ltac:(discriminate))|].
  split; [exact (Hget 2%nat (float64_of_Z 10) eq_refl ltac:(discriminate))|].
  exact (Hoverflow 1000).
Defined.

(** C2 on the Sum "requests" of the instance, its unit unspecified: the
    records of the monotonic Sum are counters named "requests_total", those
    of the other are gauges named "requests". *)
Lemma addSumMetric_kind_and_name_witness :
  getName c0 (metric "requests" (DataSumInt64 (requests true)) "")
  = Some "requests"
  ∧ translateMetric c0 (metric "requests" (DataSumInt64 (requests true)) "")
    = addSumMetric (requests true)
        (metric "requests" (DataSumInt64 (requests true)) "") "requests"
  ∧ (∃ e', addSumMetric (requests true)
             (metric "requests" (DataSumInt64 (requests true)) "")
             "requests" e0 = Some (tt, e')
           ∧ omap (λ r, match r with
                        | constMetric desc valueType _ _ =>
                          Some (fqName desc, valueType)
                        | _ => None
                        end) (ch e')
             = [("requests_total", CounterValue);
                ("requests_total", CounterValue)])
  ∧ (∃ e', addSumMetric (requests false)
             (metric "requests" (DataSumInt64 (requests false)) "")
             "requests" e0 = Some (tt, e')
           ∧ omap (λ r, match r with
                        | constMetric desc valueType _ _ =>
                          Some (fqName desc, valueType)
                        | _ => None
                        end) (ch e')
             = [("requests", GaugeValue); ("requests", GaugeValue)]).
Proof.
  split; [reflexivity|]. split.
  { exact (proj1 (proj2 addSumMetric_kind_and_name) c0
             (metric "requests" (DataSumInt64 (requests true)) "")
             "requests" (requests true) eq_refl eq_refl). }
  split.
  - destruct (proj1 addSumMetric_kind_and_name Z _ (requests true)
                (metric "requests" (DataSumInt64 (requests true)) "")
                "requests" e0) as (e' & new & Hrun & _).
    exists e'. split; [exact Hrun|].
    vm_compute in Hrun. injection Hrun as <-. reflexivity.
  - destruct (proj1 addSumMetric_kind_and_name Z _ (requests false)
                (metric "requests" (DataSumInt64 (requests false)) "")
                "requests" e0) as (e' & new & Hrun & _).
    exists e'. split; [exact Hrun|].
    vm_compute in Hrun. injection Hrun as <-. reflexivity.
Defined.

(** C3 as the specification states it does not hold: on "0abc" the digit
    is kept. *)
Lemma sanitizeName_0abc_counterexample :
  sanitizeName "0abc" = Some "_0abc" ∧ sanitizeName "0abc" ≠ Some "_abc".
Proof. split; [reflexivity|discriminate]. Qed.

(** C3, as amended, on "0abc". *)
Lemma sanitizeName_prefixes_leading_digit_witness :
  rune "0" ≤ rune "0" ≤ rune "9" ∧ sanitizeName "0abc" = Some "_0abc".
Proof.
  assert (rune "0" ≤ rune "0" ≤ rune "9") as Hd by (vm_compute; split; discriminate).
  split; [exact Hd|].
  exact (sanitizeName_prefixes_leading_digit "0" "abc" Hd).
Defined.

(** C5 on the attribute set {"a-b": "y", "a.b": "x", "c": "z"}: the two
    keys that sanitize to "a_b" give one label, with both values. *)
Lemma getAttrs_merges_collisions_witness :
  let attrs := [Demo.kv "a-b" "y"; Demo.kv "a.b" "x"; Demo.kv "c" "z"] in
  getAttrs (runtimeOrder 0) attrs = (["c"; "a_b"], ["z"; "y;x"])
  ∧ NoDup ["c"; "a_b"]
  ∧ ∃ vals, ["z"; "y;x"] !! 1%nat = Some (Join vals ";")
            ∧ vals ≡ₚ valuesUnder "a_b" attrs.
Proof.
  intros attrs.
  assert (runtimeOrder 0 (groupAttrs attrs) ≡ₚ map_to_list (groupAttrs attrs))
    as Hperm by reflexivity.
  assert (∀ vals, sortSlice (λ i j, Nat.ltb i j) vals ≡ₚ vals)
    as Hsort by reflexivity.
  assert (getAttrs (runtimeOrder 0) attrs = (["c"; "a_b"], ["z"; "y;x"]))
    as Hrun by (vm_compute; reflexivity).
  destruct (getAttrs_merges_collisions (runtimeOrder 0) attrs
              ["c"; "a_b"] ["z"; "y;x"] Hperm Hsort Hrun)
    as (_ & Hnodup & _ & Hvalues).
  split; [exact Hrun|]. split; [exact Hnodup|].
  exact (Hvalues 1%nat "a_b" eq_refl).
Defined.

(** C6 on the metric "latency" in milliseconds, with and without units. *)
Lemma getName_unit_suffix_witness :
  NoDup [(Dimensionless : Unit); Bytes; Milliseconds]
  ∧ getName Demo.c0 (Demo.metric "latency" DataOther "ms")
    = Some "latency_milliseconds"
  ∧ getName {| disableTargetInfo := false; withoutUnits := true;
               targetInfo := nilMetric; createTargetInfoOnce := false |}
            (Demo.metric "latency" DataOther "ms")
    = Some "latency".
Proof.
  assert (NoDup [(Dimensionless : Unit); Bytes; Milliseconds]) as Hunits
    by (apply (bool_decide_unpack _); vm_compute; exact I).
  assert (sanitizeName (Name (Demo.metric "latency" DataOther "ms"))
          = Some "latency")
    as Hname by (vm_compute; reflexivity).
  split; [exact Hunits|]. split.
  - exact (proj1 (proj2 (proj2 (proj2 (proj2
             (getName_unit_suffix Demo.c0
                (Demo.metric "latency" DataOther "ms") Hunits)
             "latency" Hname) eq_refl))) eq_refl).
  - exact (proj1 (proj2
             (getName_unit_suffix
                {| disableTargetInfo := false; withoutUnits := true;
                   targetInfo := nilMetric; createTargetInfoOnce := false |}
                (Demo.metric "latency" DataOther "ms") Hunits)
             "latency" Hname) eq_refl).
Defined.

(** C7 as the specification states it does not hold on the attribute set
    {"a": "1", "b": "2"}: two calls, each visiting the map in an order the
    runtime may take, return the labels in different orders. *)
Lemma getAttrs_order_counterexample :
  let attrs := [Demo.kv "a" "1"; Demo.kv "b" "2"] in
  runtimeOrder 0 (groupAttrs attrs) ≡ₚ map_to_list (groupAttrs attrs)
  ∧ runtimeOrder 1 (groupAttrs attrs) ≡ₚ map_to_list (groupAttrs attrs)
  ∧ getAttrs (runtimeOrder 0) attrs = (["a"; "b"], ["1"; "2"])
  ∧ getAttrs (runtimeOrder 1) attrs = (["b"; "a"], ["2"; "1"])
  ∧ getAttrs (runtimeOrder 0) attrs ≠ getAttrs (runtimeOrder 1) attrs.
Proof.
  intros attrs. split; [reflexivity|].
  split; [apply reverse_Permutation|].
  split; [vm_compute; reflexivity|].
  split; [vm_compute; reflexivity|].
  vm_compute. discriminate.
Qed.

(** C7, as amended, on the same two calls. *)
Lemma getAttrs_same_labels_witness :
  let attrs := [Demo.kv "a" "1"; Demo.kv "b" "2"] in
  labels (getAttrs (runtimeOrder 0) attrs)
  ≡ₚ labels (getAttrs (runtimeOrder 1) attrs).
Proof.
  intros attrs.
  assert (runtimeOrder 0 (groupAttrs attrs) ≡ₚ map_to_list (groupAttrs attrs))
    as H0 by reflexivity.
  assert (runtimeOrder 1 (groupAttrs attrs) ≡ₚ map_to_list (groupAttrs attrs))
    as H1 by apply reverse_Permutation.
  exact (proj1 (getAttrs_same_labels (runtimeOrder 0) (runtimeOrder 1)
                  attrs H0 H1)).
Defined.

(** C9 as the specification states it does not hold: the not-registered
    error is reported to the fault handler. *)
Lemma Collect_not_registered_counterexample :
  ¬ ∃ c' e',
      Collect Demo.c0 (Demo.snapshot, Some ErrReaderNotRegistered) Demo.e0
      = Some (c', e')
      ∧ ch e' = ch Demo.e0 ∧ handled e' = handled Demo.e0.
Proof.
  intros (c' & e' & Hrun & _ & Hhandled).
  vm_compute in Hrun. injection Hrun as <- <-. discriminate Hhandled.
Qed.


(** C8 on a Sum, on a Histogram and on a Gauge of the instance whose
    second data point carries a reserved label name: the first and the
    third data point are sent, the error of the second is reported. *)
Lemma rejected_data_point_is_skipped_witness :
  (scalarOutcome "requests_total" "d" CounterValue 1 bad
   = Some (inr "label name is reserved")
   ∧ ∃ e', addSumMetric (requests true)
             (metric "requests" (DataSumInt64 (requests true)) "")
             "requests" e0
           = Some (tt, e')
           ∧ length (ch e') = 2%nat
           ∧ handled e' = ["label name is reserved"])
  ∧ (histogramOutcome "latency" "d" 1 (hist [kv "__a" "1"])
     = Some (inr "label name is reserved")
     ∧ ∃ e', addHistogramMetric
               {| histDataPoints :=
                    [hist [kv "a" "1"]; hist [kv "__a" "1"];
                     hist [kv "b" "2"]] |}
               (metric "latency" DataOther "") "latency" e0
             = Some (tt, e')
             ∧ length (ch e') = 2%nat
             ∧ handled e' = ["label name is reserved"])
  ∧ (scalarOutcome "temperature" "d" GaugeValue 1 bad
     = Some (inr "label name is reserved")
     ∧ ∃ e', addGaugeMetric {| gaugeDataPoints := [ok; bad; ok] |}
               (metric "temperature" DataOther "") "temperature" e0
             = Some (tt, e')
             ∧ length (ch e') = 2%nat
             ∧ handled e' = ["label name is reserved"]).
Proof.
  split; [|split].
  - assert (scalarOutcome "requests_total" "d" CounterValue 1 bad
            = Some (inr "label name is reserved")) as Hbad
      by (vm_compute; reflexivity).
    split; [exact Hbad|].
    destruct (proj1 rejected_data_point_is_skipped Z _ (requests true)
                (metric "requests" (DataSumInt64 (requests true)) "")
                "requests" [ok] [ok] bad "label name is reserved" e0 eq_refl Hbad)
      as (e' & outsBefore & outsAfter & Hrun & _).
    exists e'. split; [exact Hrun|].
    vm_compute in Hrun. injection Hrun as <-. split; reflexivity.
  - assert (histogramOutcome "latency" "d" 1 (hist [kv "__a" "1"])
            = Some (inr "label name is reserved")) as Hbad
      by (vm_compute; reflexivity).
    split; [exact Hbad|].
    assert (Forall (λ dp, length (hBucketCounts dp)
                          = S (length (hBounds dp)))
              [hist [kv "a" "1"]; hist [kv "__a" "1"]; hist [kv "b" "2"]])
      as Hwf by (repeat constructor).
    destruct (proj1 (proj2 rejected_data_point_is_skipped)
                {| histDataPoints :=
                     [hist [kv "a" "1"]; hist [kv "__a" "1"];
                      hist [kv "b" "2"]] |}
                (metric "latency" DataOther "") "latency"
                [hist [kv "a" "1"]] [hist [kv "b" "2"]]
                (hist [kv "__a" "1"]) "label name is reserved" e0
                eq_refl Hwf Hbad)
      as (e' & outsBefore & outsAfter & Hrun & _).
    exists e'. split; [exact Hrun|].
    vm_compute in Hrun. injection Hrun as <-. split; reflexivity.
  - assert (scalarOutcome "temperature" "d" GaugeValue 1 bad
            = Some (inr "label name is reserved")) as Hbad
      by (vm_compute; reflexivity).
    split; [exact Hbad|].
    destruct (proj2 (proj2 rejected_data_point_is_skipped) Z _
                {| gaugeDataPoints := [ok; bad; ok] |}
                (metric "temperature" DataOther "") "temperature"
                [ok] [ok] bad "label name is reserved" e0 eq_refl Hbad)
      as (e' & outsBefore & outsAfter & Hrun & _).
    exists e'. split; [exact Hrun|].
    vm_compute in Hrun. injection Hrun as <-. split; reflexivity.
Defined.

(** ** The further theorems at work on the instances *)

(** X1 on a Gauge of the instance with an accepted and a rejected data
    point. *)
Lemma addGaugeMetric_kind_and_name_witness :
  ∃ e', addGaugeMetric {| gaugeDataPoints := [ok; bad] |}
          (metric "temperature" DataOther "") "temperature" e0
        = Some (tt, e')
        ∧ omap (λ r, match r with
                     | constMetric desc valueType _ _ =>
                       Some (fqName desc, valueType)
                     | _ => None
                     end) (ch e')
          = [("temperature", GaugeValue)]
        ∧ handled e' = ["label name is reserved"].
Proof.
  destruct (addGaugeMetric_kind_and_name {| gaugeDataPoints := [ok; bad] |}
              (metric "temperature" DataOther "") "temperature" e0)
    as (e' & new & errs & Hrun & _).
  exists e'. split; [exact Hrun|].
  vm_compute in Hrun. injection Hrun as <-. split; reflexivity.
Defined.

(** X2 on the Sum and on a Histogram of the instance. *)
Lemma data_points_accounted_witness :
  (∃ e', addSumMetric (requests true)
           (metric "requests" DataOther "") "requests" e0 = Some (tt, e')
         ∧ (length (ch e') + length (handled e'))%nat = 3%nat
         ∧ ranges e' = 3%nat)
  ∧ (∃ e', addHistogramMetric
             {| histDataPoints := [hist [kv "a" "1"]; hist [kv "__a" "1"]] |}
             (metric "latency" DataOther "") "latency" e0 = Some (tt, e')
           ∧ (length (ch e') + length (handled e'))%nat = 2%nat
           ∧ ranges e' = 2%nat).
Proof.
  split.
  - destruct (proj1 data_points_accounted Z _ (requests true)
                (metric "requests" DataOther "") "requests" e0)
      as (e' & new & errs & Hrun & _).
    exists e'. split; [exact Hrun|].
    vm_compute in Hrun. injection Hrun as <-. split; reflexivity.
  - assert (Forall (λ dp, length (hBucketCounts dp)
                          = S (length (hBounds dp)))
              [hist [kv "a" "1"]; hist [kv "__a" "1"]])
      as Hwf by (repeat constructor).
    destruct (proj2 data_points_accounted
                {| histDataPoints :=
                     [hist [kv "a" "1"]; hist [kv "__a" "1"]] |}
                (metric "latency" DataOther "") "latency" e0 Hwf)
      as (e' & new & errs & Hrun & _).
    exists e'. split; [exact Hrun|].
    vm_compute in Hrun. injection Hrun as <-. split; reflexivity.
Defined.

(** X3 on a Histogram whose second data point has three bounds and two
    bucket counts. *)
Lemma addHistogramMetric_short_counts_panic_witness :
  let short := {| hAttributes := []; hCount := 5;
                  hBounds := float64_of_Z <$> [1; 5; 10];
                  hBucketCounts := [2; 3]; hSum := float64_of_Z 7 |} in
  (length (hBucketCounts short) < length (hBounds short))%nat
  ∧ addHistogramMetric {| histDataPoints := [hist []; short; hist []] |}
      (metric "latency" DataOther "") "latency" e0 = None.
Proof.
  intros short.
  assert (length (hBucketCounts short) < length (hBounds short))%nat
    as Hshort by (vm_compute; lia).
  split; [exact Hshort|].
  apply (addHistogramMetric_short_counts_panic _ _ _ short);
    [|exact Hshort].
  apply list_elem_of_further, list_elem_of_here.
Defined.

(** X4 on bounds [1, 5, 10] and bucket counts [2, 3, 4, 1]. *)
Lemma cumulativeBuckets_monotone_witness :
  ∃ buckets : list (float64 * Z),
    cumulativeBuckets (float64_of_Z <$> [1; 5; 10]) [2; 3; 4; 1]
    = Some buckets
    ∧ buckets.*2 = [2; 5; 9]
    ∧ ∀ i j bi ci bj cj,
        (i ≤ j)%nat →
        buckets !! i = Some (bi, ci) → buckets !! j = Some (bj, cj) →
        0 ≤ ci ≤ cj ∧ cj ≤ 9.
Proof.
  assert (Forall (λ c, 0 ≤ c) [2; 3; 4; 1]) as Hpos
    by (repeat constructor; lia).
  assert (sumZ [2; 3; 4; 1] < 2 ^ 64) as Hsmall by (vm_compute; reflexivity).
  assert (length [2; 3; 4; 1] = S (length (float64_of_Z <$> [1; 5; 10])))
    as Hlen by reflexivity.
  assert (strictlyAscending (float64_of_Z <$> [1; 5; 10]) = true)
    as Hasc by reflexivity.
  destruct (cumulativeBuckets_monotone (float64_of_Z <$> [1; 5; 10])
              [2; 3; 4; 1] Hlen Hasc Hpos Hsmall)
    as (buckets & Hrun & _ & Hmono).
  exists buckets. split; [exact Hrun|]. split; [|exact Hmono].
  vm_compute in Hrun. injection Hrun as <-. reflexivity.
Defined.

(** X5 on a Histogram of the instance. *)
Lemma addHistogramMetric_records_witness :
  ∃ e' new,
    addHistogramMetric {| histDataPoints := [hist [kv "a" "1"]] |}
      (metric "latency" DataOther "") "latency" e0 = Some (tt, e')
    ∧ ch e' = ch e0 ++ new
    ∧ ∀ r, r ∈ new →
        ∃ dp keys values buckets,
          dp ∈ [hist [kv "a" "1"]]
          ∧ cumulativeBuckets (hBounds dp) (hBucketCounts dp) = Some buckets
          ∧ length keys = length values
          ∧ r = constHistogram (NewDesc "latency" "d" keys)
                               (hCount dp) (hSum dp) buckets values.
Proof.
  destruct (addHistogramMetric {| histDataPoints := [hist [kv "a" "1"]] |}
              (metric "latency" DataOther "") "latency" e0)
    as [[[] e']|] eqn:Hrun; [|vm_compute in Hrun; discriminate Hrun].
  destruct (addHistogramMetric_records _ _ _ _ _ Hrun) as (new & Hch & Hnew).
  exists e', new. split; [reflexivity|]. split; [exact Hch|exact Hnew].
Defined.

(** X6 on a snapshot that holds, after a well-formed Sum, a Gauge without
    data points whose name is the byte 0xFF. *)
Lemma Collect_panics_on_name_witness :
  let unnamed :=
    {| Name := String (ascii_of_N 255) ""; Description := "";
       MetricUnit := "";
       Data := DataGaugeInt64 {| gaugeDataPoints := [] |} |} in
  let metrics :=
    {| Resource := [];
       ScopeMetricsOf :=
         [ {| ScopeMetricsList :=
                [metric "requests" (DataSumInt64 (requests true)) "";
                 unnamed] |} ] |} in
  sanitizeName (Name unnamed) = None
  ∧ Collect c0 (metrics, None) e0 = None.
Proof.
  intros unnamed metrics.
  assert (sanitizeName (Name unnamed) = None) as Hname by reflexivity.
  split; [exact Hname|].
  apply (Collect_panics_on_name c0 metrics None
           {| ScopeMetricsList :=
                [metric "requests" (DataSumInt64 (requests true)) "";
                 unnamed] |} unnamed e0).
  - discriminate.
  - apply list_elem_of_here.
  - apply list_elem_of_further, list_elem_of_here.
  - discriminate.
  - exact Hname.
Defined.

(** X7 on the collector that the first scrape of the instance leaves: two
    more scrapes, one of them on another resource with a failing reader,
    leave it as it is. *)
Lemma target_info_built_once_witness :
  ∃ c1 e1,
    Collect c0 (snapshot, None) e0 = Some (c1, e1)
    ∧ createTargetInfoOnce c1 = true
    ∧ ∃ c2 e2,
        scrapes c1
          [({| Resource := [kv "service.name" "y"];
               ScopeMetricsOf := ScopeMetricsOf snapshot |},
            Some "deadline exceeded");
           (snapshot, None)] e1 = Some (c2, e2)
        ∧ c2 = c1.
Proof.
  destruct (Collect c0 (snapshot, None) e0) as [[c1 e1]|] eqn:Hfirst;
    [|vm_compute in Hfirst; discriminate Hfirst].
  exists c1, e1. split; [reflexivity|].
  assert (createTargetInfoOnce c1 = true) as Hdone
    by (vm_compute in Hfirst; by injection Hfirst as <- _).
  split; [exact Hdone|].
  destruct (scrapes c1 _ e1) as [[c2 e2]|] eqn:Hlater.
  - exists c2, e2. split; [reflexivity|].
    exact (proj1 (target_info_built_once c1 Hdone) _ _ _ _ Hlater).
  - vm_compute in Hfirst. injection Hfirst as <- <-.
    vm_compute in Hlater. discriminate Hlater.
Defined.


(** X9 on two scrapes of a collector that [New] builds. *)
Lemma scrapes_send_records_witness :
  let cfg := {| cfgDisableTargetInfo := false; cfgWithoutUnits := false;
                cfgRegister := λ _, None |} in
  ∃ c' e',
    scrapes (newCollector cfg)
            [(snapshot, Some ErrReaderNotRegistered); (snapshot, None)] e0
    = Some (c', e')
    ∧ length (ch e') = 3%nat
    ∧ ∃ new, ch e' = ch e0 ++ new ∧ Forall (λ r, r ≠ nilMetric) new.
Proof.
  intros cfg.
  destruct (scrapes (newCollector cfg) _ e0) as [[c' e']|] eqn:Hrun;
    [|vm_compute in Hrun; discriminate Hrun].
  exists c', e'. split; [reflexivity|].
  split; [vm_compute in Hrun; by injection Hrun as _ <-|].
  exact (scrapes_send_records cfg _ _ _ _ Hrun).
Defined.

(** X10 on "my.metric/name" and what [sanitizeName] makes of it. *)
Lemma sanitizeName_fixes_valid_names_witness :
  matchesGrammar "my_metric_name" = true
  ∧ sanitizeName "my.metric/name" = Some "my_metric_name"
  ∧ sanitizeName "my_metric_name" = Some "my_metric_name".
Proof.
  assert (sanitizeName "my.metric/name" = Some "my_metric_name") as Hout
    by reflexivity.
  split; [reflexivity|]. split; [exact Hout|].
  exact (proj2 sanitizeName_fixes_valid_names _ _ Hout).
Defined.

(** X11 on "9 lives/s". *)
Lemma sanitizeName_ascii_witness :
  asciiOnly "9 lives/s" = true ∧ sanitizeName "9 lives/s" = Some "_9_lives_s".
Proof.
  assert (asciiOnly "9 lives/s" = true) as Hascii by reflexivity.
  split; [exact Hascii|]. exact (sanitizeName_ascii "9 lives/s" Hascii).
Defined.

(** X12 on the metric "9 lives" in bytes. *)
Lemma getName_matches_grammar_witness :
  getName c0 (metric "9 lives" DataOther "By") = Some "_9_lives_bytes"
  ∧ matchesGrammar "_9_lives_bytes" = true
  ∧ matchesGrammar "_9_lives_bytes_total" = true.
Proof.
  assert (getName c0 (metric "9 lives" DataOther "By")
          = Some "_9_lives_bytes") as Hname by reflexivity.
  destruct (getName_matches_grammar _ _ _ Hname) as (Hn & Htotal & _).
  split; [exact Hname|]. split; [exact Hn|exact Htotal].
Defined.

(** X13 on the attribute set {"a-b": "y", "a.b": "x", "c": "z"}. *)
Lemma getAttrs_label_count_witness :
  let attrs := [kv "a-b" "y"; kv "a.b" "x"; kv "c" "z"] in
  getAttrs (runtimeOrder 0) attrs = (["c"; "a_b"], ["z"; "y;x"])
  ∧ (length ["c"; "a_b"] ≤ length attrs)%nat.
Proof.
  intros attrs.
  assert (runtimeOrder 0 (groupAttrs attrs) ≡ₚ map_to_list (groupAttrs attrs))
    as Hperm by reflexivity.
  assert (getAttrs (runtimeOrder 0) attrs = (["c"; "a_b"], ["z"; "y;x"]))
    as Hrun by (vm_compute; reflexivity).
  split; [exact Hrun|].
  exact (proj1 (getAttrs_label_count _ _ _ _ Hperm Hrun)).
Defined.

(** X14 on the attribute set {"a.b": "x", "c": "z"}. *)
Lemma getAttrs_without_collisions_witness :
  let attrs := [kv "a.b" "x"; kv "c" "z"] in
  NoDup (sanitizedKey <$> attrs)
  ∧ labels (getAttrs (runtimeOrder 1) attrs) ≡ₚ [("a_b", "x"); ("c", "z")].
Proof.
  intros attrs.
  assert (runtimeOrder 1 (groupAttrs attrs) ≡ₚ map_to_list (groupAttrs attrs))
    as Hperm by apply reverse_Permutation.
  assert (∀ vals, sortSlice (λ i j, Nat.ltb i j) vals ≡ₚ vals)
    as Hsort by reflexivity.
  assert (NoDup (sanitizedKey <$> attrs)) as Hnodup
    by (apply (bool_decide_unpack _); vm_compute; exact I).
  split; [exact Hnodup|].
  exact (getAttrs_without_collisions _ attrs Hperm Hsort Hnodup).
Defined.

(** X15 on the key "9.a-b". *)
Lemma sanitizedKey_ascii_witness :
  asciiOnly (Key (kv "9.a-b" "x")) = true
  ∧ sanitizedKey (kv "9.a-b" "x") = "9_a_b"
  ∧ String.length (sanitizedKey (kv "9.a-b" "x")) = 5%nat.
Proof.
  assert (asciiOnly (Key (kv "9.a-b" "x")) = true) as Hascii by reflexivity.
  destruct (sanitizedKey_ascii (kv "9.a-b" "x") Hascii) as [Hkey Hlen].
  split; [exact Hascii|]. split; [exact Hkey|exact Hlen].
Defined.

(** X16 on a snapshot of a resource alone, with the target info enabled
    and disabled. *)
Lemma Collect_empty_snapshot_witness :
  (∃ c' e', Collect c0 ({| Resource := [kv "service.name" "x"];
                           ScopeMetricsOf := [] |}, None) e0
            = Some (c', e')
            ∧ ch e' = [targetInfo c'])
  ∧ (∃ c' e', Collect {| disableTargetInfo := true; withoutUnits := false;
                         targetInfo := nilMetric;
                         createTargetInfoOnce := false |}
                ({| Resource := [kv "service.name" "x"];
                    ScopeMetricsOf := [] |}, None) e0
              = Some (c', e')
              ∧ ch e' = []).
Proof.
  split.
  - destruct (Collect_empty_snapshot c0
                {| Resource := [kv "service.name" "x"];
                   ScopeMetricsOf := [] |} e0 eq_refl)
      as (c' & e' & Hrun & Hch & _).
    exists c', e'. split; [exact Hrun|].
    rewrite Hch. vm_compute in Hrun. by injection Hrun as <- _.
  - destruct (Collect_empty_snapshot
                {| disableTargetInfo := true; withoutUnits := false;
                   targetInfo := nilMetric; createTargetInfoOnce := false |}
                {| Resource := [kv "service.name" "x"];
                   ScopeMetricsOf := [] |} e0 eq_refl)
      as (c' & e' & Hrun & _ & Hch).
    exists c', e'. split; [exact Hrun|]. exact (Hch eq_refl).
Defined.

(** X17 and X18 on two uploads to "./otlp.json" beside another file. *)
Lemma UploadMetrics_appends_witness :
  let files : gmap string string := {[ "notes.txt" := "keep" ]} in
  ∃ files',
    FileDemo.upload "a" files = (None, files')
    ∧ files' !! "notes.txt" = Some "keep"
    ∧ ∃ added, files' !! "notes.txt" = Some ("keep" +:+ added).
Proof.
  intros files.
  destruct (FileDemo.upload "a" files) as [err files'] eqn:Hrun.
  assert (err = None) as ->
    by (vm_compute in Hrun; by injection Hrun as <- _).
  exists files'. split; [reflexivity|].
  destruct (UploadMetrics_appends _ _ _ _ _ _ _ _ Hrun) as [Hkept Hothers].
  split.
  - rewrite (Hothers "notes.txt") by discriminate. reflexivity.
  - exact (Hkept "notes.txt" "keep" eq_refl).
Defined.

Lemma UploadMetrics_writes_a_line_witness :
  ∃ files1 files2,
    FileDemo.upload "a" ∅ = (None, files1)
    ∧ FileDemo.upload "b" files1 = (None, files2)
    ∧ files2 !! "./otlp.json"
      = Some ("{a}" +:+ String "010" "" +:+ "{b}" +:+ String "010" "").
Proof.
  destruct (FileDemo.upload "a" ∅) as [err1 files1] eqn:Hrun1.
  assert (err1 = None) as ->
    by (vm_compute in Hrun1; by injection Hrun1 as <- _).
  destruct (FileDemo.upload "b" files1) as [err2 files2] eqn:Hrun2.
  assert (err2 = None) as ->.
  { vm_compute in Hrun1. injection Hrun1 as <-.
    vm_compute in Hrun2. by injection Hrun2 as <- _. }
  exists files1, files2. split; [reflexivity|]. split; [exact Hrun2|].
  destruct (proj2 (UploadMetrics_writes_a_line _ _ _ FileDemo.client)
              "a" "b" ∅ files1 files2 Hrun1 Hrun2)
    as (json1 & json2 & H1 & H2 & Hfile).
  vm_compute in H1. injection H1 as <-.
  vm_compute in H2. injection H2 as <-.
  exact Hfile.
Defined.
